(** * Matching-cost factors of gtsam_points: GICP and colour consistency

    A shallow embedding of
    [include/gtsam_points/factors/impl/integrated_gicp_factor_impl.hpp] and
    [include/gtsam_points/factors/impl/integrated_color_consistency_factor_impl.hpp].

    Conventions of the embedding.
    - [double] is read as an exact rational ([Qc], canonical rationals with
      Leibniz equality): the arithmetic of the factors is modelled without
      rounding, overflow, infinities or NaN.
    - Fixed-size Eigen vectors and matrices are functions from indices to
      entries; an entry outside the declared size is never read.
    - The [omp parallel for] loops are read as the sequential build reads
      them (no [_OPENMP]): indices in increasing order, [thread_num = 0].
    - [mutable] members written by the [const] methods are threaded
      explicitly: a method returns the factor after the call.
    - Every call of [knn_search] is logged, so that the absence of a
      query can be stated. *)

From Stdlib Require Import QArith Qcanon ZArith Lia Field Lqa.
From stdpp Require Import base list.

(** ** Eigen: the fixed-size linear algebra the factors use *)

Module Eigen.

Local Open Scope Qc_scope.

Definition double := Qc.

Definition half : double := Q2Qc (1 # 2).

(** [a < b] on doubles, as a boolean. *)
Definition ltb (a b : double) : bool :=
  match (a ?= b)%Qc with Lt => true | _ => false end.

(** [Eigen::Matrix<double, n, 1>] and [Eigen::Matrix<double, r, c>]. *)
Definition Vector (n : nat) := nat -> double.
Definition Matrix (r c : nat) := nat -> nat -> double.

(** Sum of [f 0 .. f (n-1)], added in increasing index order. *)
Fixpoint sum_upto (n : nat) (f : nat -> double) : double :=
  match n with
  | O => 0
  | S k => sum_upto k f + f k
  end.

Definition Zero {r c : nat} : Matrix r c := fun _ _ => 0.
Definition vZero {n : nat} : Vector n := fun _ => 0.
Definition Identity {n : nat} : Matrix n n :=
  fun i j => if (i =? j)%nat then 1 else 0.

Definition madd {r c} (A B : Matrix r c) : Matrix r c := fun i j => A i j + B i j.
Definition mopp {r c} (A : Matrix r c) : Matrix r c := fun i j => - A i j.
Definition msub {r c} (A B : Matrix r c) : Matrix r c := fun i j => A i j - B i j.
Definition transpose {r c} (A : Matrix r c) : Matrix c r := fun i j => A j i.
Definition mmul {r k c} (A : Matrix r k) (B : Matrix k c) : Matrix r c :=
  fun i j => sum_upto k (fun l => A i l * B l j).
Definition mvmul {r c} (A : Matrix r c) (v : Vector c) : Vector r :=
  fun i => sum_upto c (fun l => A i l * v l).

Definition vadd {n} (u v : Vector n) : Vector n := fun i => u i + v i.
Definition vsub {n} (u v : Vector n) : Vector n := fun i => u i - v i.
Definition vscale {n} (s : double) (u : Vector n) : Vector n := fun i => s * u i.
Definition vscale_r {n} (u : Vector n) (s : double) : Vector n := fun i => u i * s.
Definition dot {n} (u v : Vector n) : double := sum_upto n (fun l => u l * v l).
Definition squaredNorm {n} (u : Vector n) : double := dot u u.

(** [u * v.transpose()]: the outer product. *)
Definition outer {r c} (u : Vector r) (v : Vector c) : Matrix r c :=
  fun i j => u i * v j.
(** A row vector times a matrix: [(v.transpose() * A)]. *)
Definition vmmul {r c} (v : Vector r) (A : Matrix r c) : Vector c :=
  fun j => sum_upto r (fun l => v l * A l j).

(** [v.head<3>()]. *)
Definition head3 {n} (v : Vector n) : Vector 3 := v.

(** [M(i0, j0) = x]. *)
Definition set_entry {r c} (M : Matrix r c) (i0 j0 : nat) (x : double) : Matrix r c :=
  fun i j => if ((i =? i0) && (j =? j0))%nat then x else M i j.

(** [v[i0] = x]. *)
Definition vset {n} (v : Vector n) (i0 : nat) (x : double) : Vector n :=
  fun i => if (i =? i0)%nat then x else v i.

(** [M.block<3, 3>(i0, j0) = B]. *)
Definition set_block33 {r c} (M : Matrix r c) (i0 j0 : nat) (B : Matrix 3 3) : Matrix r c :=
  fun i j =>
    if ((i0 <=? i) && (i <? i0 + 3) && (j0 <=? j) && (j <? j0 + 3))%nat
    then B (i - i0)%nat (j - j0)%nat
    else M i j.

(** [M.block<3, 3>(i0, j0)] read. *)
Definition block33 {r c} (M : Matrix r c) (i0 j0 : nat) : Matrix 3 3 :=
  fun i j => M (i0 + i)%nat (j0 + j)%nat.

(** Entrywise equality on the declared size. *)
Definition meq {r c} (A B : Matrix r c) : Prop :=
  forall i j, (i < r)%nat -> (j < c)%nat -> A i j = B i j.
Definition veq {n} (u v : Vector n) : Prop :=
  forall i, (i < n)%nat -> u i = v i.

(** *** Determinant and inverse of a 4x4 matrix

    [Matrix4d::inverse()] is Eigen's fixed-size inverse: the transposed
    matrix of cofactors over the determinant. *)

Definition skip (k i : nat) : nat := if (i <? k)%nat then i else S i.

(** The matrix without row [r0] and column [c0]. *)
Definition minor {n} (A : Matrix (S n) (S n)) (r0 c0 : nat) : Matrix n n :=
  fun i j => A (skip r0 i) (skip c0 j).

Definition det3 (A : Matrix 3 3) : double :=
  A 0%nat 0%nat * (A 1%nat 1%nat * A 2%nat 2%nat - A 1%nat 2%nat * A 2%nat 1%nat)
  - A 0%nat 1%nat * (A 1%nat 0%nat * A 2%nat 2%nat - A 1%nat 2%nat * A 2%nat 0%nat)
  + A 0%nat 2%nat * (A 1%nat 0%nat * A 2%nat 1%nat - A 1%nat 1%nat * A 2%nat 0%nat).

Definition sign (i j : nat) : double := if Nat.even (i + j) then 1 else - (1).

Definition cofactor (A : Matrix 4 4) (i j : nat) : double :=
  sign i j * det3 (minor A i j).

Definition det4 (A : Matrix 4 4) : double :=
  sum_upto 4 (fun j => A 0%nat j * cofactor A 0%nat j).

Definition inverse (A : Matrix 4 4) : Matrix 4 4 :=
  fun i j => cofactor A j i / det4 A.

(** *** [Eigen::Isometry3d]: a rotation and a translation *)

Record Isometry3d := {
  linear : Matrix 3 3;
  translation : Vector 3
}.

Definition Isometry3d_Identity : Isometry3d :=
  {| linear := Identity; translation := vZero |}.

(** [T.matrix()]: the 4x4 homogeneous matrix, last row [0 0 0 1]. *)
Definition matrix (T : Isometry3d) : Matrix 4 4 :=
  fun i j =>
    if (i <? 3)%nat
    then (if (j <? 3)%nat then linear T i j else translation T i)
    else (if (j =? 3)%nat then 1 else 0).

(** [T.inverse()] in isometry mode: the linear part is [R^T], the
    translation [(- R^T) * t]. *)
Definition Isometry3d_inverse (T : Isometry3d) : Isometry3d :=
  {| linear := transpose (linear T);
     translation := mvmul (r:=3) (c:=3) (mopp (transpose (linear T))) (translation T) |}.

(** [A * B] for two isometries. *)
Definition compose (A B : Isometry3d) : Isometry3d :=
  {| linear := mmul (k:=3) (linear A) (linear B);
     translation := vadd (mvmul (r:=3) (c:=3) (linear A) (translation B)) (translation A) |}.

(** [T * v] for a homogeneous [Vector4d]: the affine part acts on [v], the
    last coordinate is copied. *)
Definition transform (T : Isometry3d) (v : Vector 4) : Vector 4 :=
  fun i =>
    if (i <? 3)%nat
    then sum_upto 3 (fun l => linear T i l * v l) + translation T i * v 3%nat
    else v i.

(** What the factors call without this repository defining it:
    [Eigen::AngleAxisd(R).angle()] and the square root behind [norm()]. *)
Class Libm := {
  AngleAxis_angle : Matrix 3 3 -> double;
  sqrt : double -> double
}.

Definition norm `{Libm} {n} (v : Vector n) : double := sqrt (squaredNorm v).

End Eigen.

(** [gtsam::SO3::Hat]: the skew-symmetric matrix of a 3-vector. *)
Module SO3.
Import Eigen.
Local Open Scope Qc_scope.

Definition Hat (v : Vector 3) : Matrix 3 3 :=
  fun i j =>
    match i, j with
    | O, S O => - v 2%nat
    | O, S (S O) => v 1%nat
    | S O, O => v 2%nat
    | S O, S (S O) => - v 0%nat
    | S (S O), O => - v 1%nat
    | S (S O), S O => v 0%nat
    | _, _ => 0
    end.

End SO3.

(** ** The interfaces of the point clouds and of the nearest-neighbour index *)

(** [frame::traits<T>]: the accessors of [types/frame_traits.hpp] the two
    factors call. An index outside [0 .. size - 1] is never passed. *)
Module frame.
Import Eigen.

Class traits (Frame : Type) := {
  size : Frame -> nat;
  has_points : Frame -> bool;
  has_normals : Frame -> bool;
  has_covs : Frame -> bool;
  has_intensities : Frame -> bool;
  point : Frame -> nat -> Vector 4;
  normal : Frame -> nat -> Vector 4;
  cov : Frame -> nat -> Matrix 4 4;
  intensity : Frame -> nat -> double
}.

(** [frame::intensity_gradient] of the target's gradients entity. *)
Class gradient_traits (Gradients : Type) := {
  intensity_gradient : Gradients -> nat -> Vector 4
}.

End frame.

(** [size_t] and [long] (LP64): the index written by [knn_search] is a
    [size_t], the entries of [correspondences] are [long]. *)
Definition size_t_max : Z := 2 ^ 64 - 1.

(** Conversion of a [size_t] value to [long]: modulo [2^64], into
    [-2^63 .. 2^63 - 1]. *)
Definition size_t_to_long (z : Z) : Z :=
  ((z + 2 ^ 63) mod 2 ^ 64 - 2 ^ 63)%Z.

(** [NearestNeighborSearch::knn_search(pt, k, k_indices, k_sq_dists,
    max_sq_dist)]. The callers pass [k = 1] and output cells initialised to
    [-1]; the result records the returned count and the content of the two
    cells after the call. *)
Record knn_result := {
  num_found : nat;
  k_index : Z;
  k_sq_dist : Eigen.double
}.

Record NearestNeighborSearch := {
  knn_search : Eigen.Vector 4 -> nat -> Eigen.double -> knn_result
}.

(** The five optional output blocks of [evaluate]: [None] is a null
    pointer, [Some m] a pointer to a block that holds [m]. *)
Record Outputs := {
  H_target : option (Eigen.Matrix 6 6);
  H_source : option (Eigen.Matrix 6 6);
  H_target_source : option (Eigen.Matrix 6 6);
  b_target : option (Eigen.Vector 6);
  b_source : option (Eigen.Vector 6)
}.

Definition no_outputs : Outputs :=
  {| H_target := None; H_source := None; H_target_source := None;
     b_target := None; b_source := None |}.

(** [H_target && H_source && H_target_source && b_target && b_source]. *)
Definition all_requested (o : Outputs) : bool :=
  bool_decide (is_Some (H_target o)) && bool_decide (is_Some (H_source o))
  && bool_decide (is_Some (H_target_source o))
  && bool_decide (is_Some (b_target o)) && bool_decide (is_Some (b_source o)).

(** The per-thread partial sums of [evaluate] and the running cost. *)
Record Accumulators := {
  sum_errors : Eigen.double;
  Hs_target : list (Eigen.Matrix 6 6);
  Hs_source : list (Eigen.Matrix 6 6);
  Hs_target_source : list (Eigen.Matrix 6 6);
  bs_target : list (Eigen.Vector 6);
  bs_source : list (Eigen.Vector 6)
}.

(** [correspondences[i]] for [i] below the size of the array. *)
Definition corr_at (correspondences : list Z) (i : nat) : Z :=
  default (-1)%Z (correspondences !! i).

Section Merge.
Import Eigen.

(** The accumulators before the loop: [num_threads] zero blocks each when
    all five outputs are requested, empty vectors otherwise. *)
Definition init_accumulators (num_threads : nat) (o : Outputs) : Accumulators :=
  if all_requested o
  then {| sum_errors := Q2Qc 0;
          Hs_target := replicate num_threads Zero;
          Hs_source := replicate num_threads Zero;
          Hs_target_source := replicate num_threads Zero;
          bs_target := replicate num_threads vZero;
          bs_source := replicate num_threads vZero |}
  else {| sum_errors := Q2Qc 0;
          Hs_target := []; Hs_source := []; Hs_target_source := [];
          bs_target := []; bs_source := [] |}.

(** The output block is zeroed, then the [num_threads] partial sums
    [Xs[0]], [Xs[1]], ... are added to it in index order. *)
Definition merge_matrices (num_threads : nat) (Xs : list (Matrix 6 6)) : Matrix 6 6 :=
  foldl (fun X i => madd X (default Zero (Xs !! i))) Zero (seq 0 num_threads).
Definition merge_vectors (num_threads : nat) (xs : list (Vector 6)) : Vector 6 :=
  foldl (fun x i => vadd x (default vZero (xs !! i))) vZero (seq 0 num_threads).

(** The output blocks after the call: summed when all were requested,
    untouched otherwise. *)
Definition write_outputs (num_threads : nat) (acc : Accumulators) (o : Outputs) : Outputs :=
  if all_requested o
  then {| H_target := Some (merge_matrices num_threads (Hs_target acc));
          H_source := Some (merge_matrices num_threads (Hs_source acc));
          H_target_source := Some (merge_matrices num_threads (Hs_target_source acc));
          b_target := Some (merge_vectors num_threads (bs_target acc));
          b_source := Some (merge_vectors num_threads (bs_source acc)) |}
  else o.

End Merge.

(** ** [IntegratedGICPFactor_]: the distribution-to-distribution cost *)

Module IntegratedGICPFactor.
Import Eigen.
Local Open Scope Qc_scope.

Section Factor.
Context {TargetFrame SourceFrame : Type}.
Context `{frame.traits TargetFrame} `{frame.traits SourceFrame} `{Libm}.

(** The members of the factor the two methods read or write. The last
    three are [mutable]: the cache. *)
Record t := {
  num_threads : nat;
  max_correspondence_distance_sq : double;
  correspondence_update_tolerance_rot : double;
  correspondence_update_tolerance_trans : double;
  target : TargetFrame;
  source : SourceFrame;
  target_tree : NearestNeighborSearch;
  last_correspondence_point : Isometry3d;
  correspondences : list Z;
  mahalanobis : list (Matrix 4 4)
}.

(** The constructors: both frames need points and covariances (the
    process aborts otherwise, [None]); the cache starts empty.
    [last_correspondence_point] is not initialised by the constructor:
    [uninit] stands for whatever it holds. *)
Definition make (target : TargetFrame) (source : SourceFrame)
    (target_tree : NearestNeighborSearch) (uninit : Isometry3d) : option t :=
  if negb (frame.has_points target) || negb (frame.has_covs target) then None
  else if negb (frame.has_points source) || negb (frame.has_covs source) then None
  else Some {| num_threads := 1;
               max_correspondence_distance_sq := 1;
               correspondence_update_tolerance_rot := 0;
               correspondence_update_tolerance_trans := 0;
               target := target; source := source; target_tree := target_tree;
               last_correspondence_point := uninit;
               correspondences := []; mahalanobis := [] |}.

Definition set_cache (f : t) (last : Isometry3d) (corr : list Z)
    (mah : list (Matrix 4 4)) : t :=
  {| num_threads := num_threads f;
     max_correspondence_distance_sq := max_correspondence_distance_sq f;
     correspondence_update_tolerance_rot := correspondence_update_tolerance_rot f;
     correspondence_update_tolerance_trans := correspondence_update_tolerance_trans f;
     target := target f; source := source f; target_tree := target_tree f;
     last_correspondence_point := last;
     correspondences := corr; mahalanobis := mah |}.

(** The value of [do_update] after the tolerance test (lines 98-106). *)
Definition do_update (f : t) (delta : Isometry3d) : bool :=
  if (length (correspondences f) =? frame.size (source f))%nat
     && (ltb 0 (correspondence_update_tolerance_trans f)
         || ltb 0 (correspondence_update_tolerance_rot f))
  then
    let diff := compose (Isometry3d_inverse delta) (last_correspondence_point f) in
    let diff_rot := AngleAxis_angle (linear diff) in
    let diff_trans := norm (n:=3) (translation diff) in
    if ltb diff_rot (correspondence_update_tolerance_rot f)
       && ltb diff_trans (correspondence_update_tolerance_trans f)
    then false else true
  else true.

(** The entry stored for source point [i] by a refresh (lines 118-123),
    with the query it sends. *)
Definition query_point (f : t) (delta : Isometry3d) (i : nat) : Vector 4 :=
  transform delta (frame.point (source f) i).

Definition found_index (f : t) (r : knn_result) : Z :=
  size_t_to_long
    (if (0 <? num_found r)%nat && ltb (k_sq_dist r) (max_correspondence_distance_sq f)
     then k_index r else size_t_max).

(** Lines 120-123: the entry a refresh stores for source point [i]. *)
Definition refreshed_index (f : t) (delta : Isometry3d) (i : nat) : Z :=
  found_index f
    (knn_search (target_tree f) (query_point f delta i) 1
                (max_correspondence_distance_sq f)).

(** Lines 130-134: the weight of a matched pair. *)
Definition mahalanobis_weight (delta : Isometry3d) (target_cov source_cov : Matrix 4 4)
    : Matrix 4 4 :=
  let RCR := madd target_cov
               (mmul (k:=4) (mmul (k:=4) (matrix delta) source_cov)
                     (transpose (matrix delta))) in
  let RCR := set_entry RCR 3 3 1 in
  set_entry (inverse RCR) 3 3 0.

(** Lines 126-135: the weight stored for source point [i], given its
    correspondence. *)
Definition weight_of (f : t) (delta : Isometry3d) (i : nat) (c : Z) : Matrix 4 4 :=
  if (c <? 0)%Z then Zero
  else mahalanobis_weight delta (frame.cov (target f) (Z.to_nat c))
                                (frame.cov (source f) i).

(** The state of the loop of [update_correspondences]: the two arrays and
    the queries sent so far. *)
Record cache := {
  c_correspondences : list Z;
  c_mahalanobis : list (Matrix 4 4);
  c_queries : list (Vector 4)
}.

(** One iteration of the loop (lines 116-136). *)
Definition update_point (f : t) (delta : Isometry3d) (upd : bool) (c : cache) (i : nat)
    : cache :=
  let '(corr, queries) :=
    if upd then
      (<[i := refreshed_index f delta i]> (c_correspondences c),
       c_queries c ++ [query_point f delta i])
    else (c_correspondences c, c_queries c) in
  {| c_correspondences := corr;
     c_mahalanobis := <[i := weight_of f delta i (corr_at corr i)]> (c_mahalanobis c);
     c_queries := queries |}.

(** The entry of source point [i] once the loop has passed it, from the
    array [corr0] the loop started on. *)
Definition stored_index (f : t) (delta : Isometry3d) (upd : bool) (corr0 : list Z)
    (i : nat) : Z :=
  if upd then refreshed_index f delta i else corr_at corr0 i.

(** [update_correspondences(delta)]: the factor after the call and the
    nearest-neighbour queries the call sent, in order. [resize] pads
    [correspondences] with [0]; the padding of [mahalanobis] is
    overwritten by the loop before it is read. *)
Definition update_correspondences (f : t) (delta : Isometry3d) : t * list (Vector 4) :=
  let upd := do_update f delta in
  let last := if upd then delta else last_correspondence_point f in
  let n := frame.size (source f) in
  let c0 := {| c_correspondences := resize n 0%Z (correspondences f);
               c_mahalanobis := resize n Zero (mahalanobis f);
               c_queries := [] |} in
  let c := foldl (update_point f delta upd) c0 (seq 0 n) in
  (set_cache f last (c_correspondences c) (c_mahalanobis c), c_queries c).

(** Lines 191-197: the two Jacobians of a matched pair. *)
Definition J_target (transed_mean_A : Vector 4) : Matrix 4 6 :=
  set_block33
    (set_block33 Zero 0 0 (mopp (SO3.Hat (head3 transed_mean_A))))
    0 3 Identity.

Definition J_source (delta : Isometry3d) (mean_A : Vector 4) : Matrix 4 6 :=
  set_block33
    (set_block33 Zero 0 0 (mmul (k:=3) (linear delta) (SO3.Hat (head3 mean_A))))
    0 3 (mopp (linear delta)).

(** Line 183 and line 185: the residual of a pair and its cost. *)
Definition error_of (f : t) (delta : Isometry3d) (i : nat) (target_index : Z) : Vector 4 :=
  vsub (frame.point (target f) (Z.to_nat target_index))
       (transform delta (frame.point (source f) i)).

Definition point_cost (W : Matrix 4 4) (error : Vector 4) : double :=
  dot (n:=4) (vmmul (r:=4) (vscale half error) W) error.

(** [mahalanobis[i]] for [i] below the size of the array. *)
Definition mahalanobis_at (f : t) (i : nat) : Matrix 4 4 :=
  default Zero (mahalanobis f !! i).

(** One iteration of the loop of [evaluate] (lines 170-212), on thread 0. *)
Definition evaluate_point (f : t) (delta : Isometry3d) (acc : Accumulators) (i : nat)
    : Accumulators :=
  let target_index := corr_at (correspondences f) i in
  if (target_index <? 0)%Z then acc
  else
    let mean_A := frame.point (source f) i in
    let transed_mean_A := transform delta mean_A in
    let error := error_of f delta i target_index in
    let W := mahalanobis_at f i in
    let sum := sum_errors acc + point_cost W error in
    if bool_decide (Hs_target acc = []) then
      {| sum_errors := sum;
         Hs_target := Hs_target acc; Hs_source := Hs_source acc;
         Hs_target_source := Hs_target_source acc;
         bs_target := bs_target acc; bs_source := bs_source acc |}
    else
      let Jt := J_target transed_mean_A in
      let Js := J_source delta mean_A in
      let thread_num := 0%nat in
      let J_target_mahalanobis := mmul (k:=4) (transpose Jt) W in
      let J_source_mahalanobis := mmul (k:=4) (transpose Js) W in
      {| sum_errors := sum;
         Hs_target :=
           alter (fun X => madd X (mmul (k:=4) J_target_mahalanobis Jt)) thread_num
                 (Hs_target acc);
         Hs_source :=
           alter (fun X => madd X (mmul (k:=4) J_source_mahalanobis Js)) thread_num
                 (Hs_source acc);
         Hs_target_source :=
           alter (fun X => madd X (mmul (k:=4) J_target_mahalanobis Js)) thread_num
                 (Hs_target_source acc);
         bs_target :=
           alter (fun x => vadd x (mvmul (c:=4) J_target_mahalanobis error)) thread_num
                 (bs_target acc);
         bs_source :=
           alter (fun x => vadd x (mvmul (c:=4) J_source_mahalanobis error)) thread_num
                 (bs_source acc) |}.

(** Lines 148-150: the cache is rebuilt when the array has not the size
    of the source. *)
Definition ensure_correspondences (f : t) (delta : Isometry3d) : t * list (Vector 4) :=
  if negb (length (correspondences f) =? frame.size (source f))%nat
  then update_correspondences f delta
  else (f, []).

(** Lines 153-212: the accumulators after the loop over the source. *)
Definition accumulate (f : t) (delta : Isometry3d) (o : Outputs) : Accumulators :=
  foldl (evaluate_point f delta)
        (init_accumulators (num_threads f) o)
        (seq 0 (frame.size (source f))).

(** What a call of [evaluate] leaves behind. *)
Record result := {
  cost : double;
  outputs : Outputs;
  factor : t;
  queries : list (Vector 4)
}.

(** [evaluate(delta, H_target, H_source, H_target_source, b_target,
    b_source)]. *)
Definition evaluate (f : t) (delta : Isometry3d) (o : Outputs) : result :=
  let '(f1, qs) := ensure_correspondences f delta in
  let acc := accumulate f1 delta o in
  {| cost := sum_errors acc;
     outputs := write_outputs (num_threads f1) acc o;
     factor := f1;
     queries := qs |}.

End Factor.

Arguments t TargetFrame SourceFrame : clear implicits.

End IntegratedGICPFactor.

(** ** [IntegratedColorConsistencyFactor_]: the photometric cost *)

Module IntegratedColorConsistencyFactor.
Import Eigen.
Local Open Scope Qc_scope.

Section Factor.
Context {TargetFrame SourceFrame IntensityGradients : Type}.
Context `{frame.traits TargetFrame} `{frame.traits SourceFrame}
        `{frame.gradient_traits IntensityGradients} `{Libm}.

(** The members of the factor; the last two are [mutable]. *)
Record t := {
  num_threads : nat;
  max_correspondence_distance_sq : double;
  photometric_term_weight : double;
  correspondence_update_tolerance_rot : double;
  correspondence_update_tolerance_trans : double;
  target : TargetFrame;
  source : SourceFrame;
  target_tree : NearestNeighborSearch;
  target_gradients : IntensityGradients;
  last_correspondence_point : Isometry3d;
  correspondences : list Z
}.

(** The constructors: the target needs points, normals and intensities,
    the source points and intensities. *)
Definition make (target : TargetFrame) (source : SourceFrame)
    (target_tree : NearestNeighborSearch) (target_gradients : IntensityGradients)
    (uninit : Isometry3d) : option t :=
  if negb (frame.has_points target) || negb (frame.has_normals target)
     || negb (frame.has_intensities target) then None
  else if negb (frame.has_points source) || negb (frame.has_intensities source) then None
  else Some {| num_threads := 1;
               max_correspondence_distance_sq := 1;
               photometric_term_weight := 1;
               correspondence_update_tolerance_rot := 0;
               correspondence_update_tolerance_trans := 0;
               target := target; source := source; target_tree := target_tree;
               target_gradients := target_gradients;
               last_correspondence_point := uninit;
               correspondences := [] |}.

Definition set_cache (f : t) (last : Isometry3d) (corr : list Z) : t :=
  {| num_threads := num_threads f;
     max_correspondence_distance_sq := max_correspondence_distance_sq f;
     photometric_term_weight := photometric_term_weight f;
     correspondence_update_tolerance_rot := correspondence_update_tolerance_rot f;
     correspondence_update_tolerance_trans := correspondence_update_tolerance_trans f;
     target := target f; source := source f; target_tree := target_tree f;
     target_gradients := target_gradients f;
     last_correspondence_point := last;
     correspondences := corr |}.

(** The value of [do_update] after the tolerance test (lines 76-84). *)
Definition do_update (f : t) (delta : Isometry3d) : bool :=
  if (length (correspondences f) =? frame.size (source f))%nat
     && (ltb 0 (correspondence_update_tolerance_trans f)
         || ltb 0 (correspondence_update_tolerance_rot f))
  then
    let diff := compose (Isometry3d_inverse delta) (last_correspondence_point f) in
    let diff_rot := AngleAxis_angle (linear diff) in
    let diff_trans := norm (n:=3) (translation diff) in
    if ltb diff_rot (correspondence_update_tolerance_rot f)
       && ltb diff_trans (correspondence_update_tolerance_trans f)
    then false else true
  else true.

(** Lines 91-92: the query of source point [i], its last coordinate
    overwritten with the intensity. *)
Definition query_point (f : t) (delta : Isometry3d) (i : nat) : Vector 4 :=
  vset (transform delta (frame.point (source f) i)) 3 (frame.intensity (source f) i).

Definition found_index (f : t) (r : knn_result) : Z :=
  size_t_to_long
    (if (0 <? num_found r)%nat && ltb (k_sq_dist r) (max_correspondence_distance_sq f)
     then k_index r else size_t_max).

(** Lines 94-98: the entry a refresh stores for source point [i]. *)
Definition refreshed_index (f : t) (delta : Isometry3d) (i : nat) : Z :=
  found_index f
    (knn_search (target_tree f) (query_point f delta i) 1
                (max_correspondence_distance_sq f)).

(** One iteration of the loop (lines 89-100): the array and the queries
    sent so far. *)
Definition update_point (f : t) (delta : Isometry3d) (upd : bool)
    (c : list Z * list (Vector 4)) (i : nat) : list Z * list (Vector 4) :=
  if upd then
    (<[i := refreshed_index f delta i]> (fst c), snd c ++ [query_point f delta i])
  else c.

(** [update_correspondences(delta)]: the factor after the call and the
    queries it sent. Line 102 stores [delta] whatever [do_update] was. *)
Definition update_correspondences (f : t) (delta : Isometry3d) : t * list (Vector 4) :=
  let upd := do_update f delta in
  let n := frame.size (source f) in
  let c := foldl (update_point f delta upd)
                 (resize n 0%Z (correspondences f), []) (seq 0 n) in
  (set_cache f delta (fst c), snd c).

(** Lines 151-156: the residual of source point [i] matched with
    [target_index]. *)
Definition error_photo (f : t) (delta : Isometry3d) (i : nat) (target_index : Z) : double :=
  let mean_A := frame.point (source f) i in
  let intensity_A := frame.intensity (source f) i in
  let mean_B := frame.point (target f) (Z.to_nat target_index) in
  let normal_B := frame.normal (target f) (Z.to_nat target_index) in
  let gradient_B :=
    frame.intensity_gradient (target_gradients f) (Z.to_nat target_index) in
  let intensity_B := frame.intensity (target f) (Z.to_nat target_index) in
  let transed_A := transform delta mean_A in
  let projected :=
    vsub transed_A (vscale (dot (n:=4) (vsub transed_A mean_B) normal_B) normal_B) in
  let offset := vsub projected mean_B in
  intensity_B + dot (n:=4) gradient_B offset - intensity_A.

(** Lines 169-175: the Jacobians of the transformed point. *)
Definition J_transed_target (transed_A : Vector 4) : Matrix 4 6 :=
  set_block33
    (set_block33 Zero 0 0 (SO3.Hat (head3 transed_A)))
    0 3 (mopp Identity).

Definition J_transed_source (delta : Isometry3d) (mean_A : Vector 4) : Matrix 4 6 :=
  set_block33
    (set_block33 Zero 0 0 (mmul (k:=3) (mopp (linear delta)) (SO3.Hat (head3 mean_A))))
    0 3 (linear delta).

(** Lines 178-183: the derivative of the residual in the transformed
    point. *)
Definition J_ephoto_transed (normal_B gradient_B : Vector 4) : Vector 4 :=
  let J_projected_transed :=
    set_entry (msub (Identity (n:=4)) (outer normal_B normal_B)) 3 3 0 in
  vmmul (r:=4) gradient_B J_projected_transed.

(** One iteration of the loop of [evaluate] (lines 135-193), on thread 0.
    With [H_target] given and another output null the vectors of partial
    sums are empty and the source indexes them out of range; the model
    leaves them empty there. *)
Definition evaluate_point (f : t) (delta : Isometry3d) (o : Outputs)
    (acc : Accumulators) (i : nat) : Accumulators :=
  let target_index := corr_at (correspondences f) i in
  if (target_index <? 0)%Z then acc
  else
    let mean_A := frame.point (source f) i in
    let normal_B := frame.normal (target f) (Z.to_nat target_index) in
    let gradient_B :=
      frame.intensity_gradient (target_gradients f) (Z.to_nat target_index) in
    let transed_A := transform delta mean_A in
    let e := error_photo f delta i target_index in
    let w := photometric_term_weight f in
    let sum := sum_errors acc + half * e * w * e in
    if negb (bool_decide (is_Some (H_target o))) then
      {| sum_errors := sum;
         Hs_target := Hs_target acc; Hs_source := Hs_source acc;
         Hs_target_source := Hs_target_source acc;
         bs_target := bs_target acc; bs_source := bs_source acc |}
    else
      let thread_num := 0%nat in
      let Jet := J_ephoto_transed normal_B gradient_B in
      let J_ephoto_target := vmmul (r:=4) Jet (J_transed_target transed_A) : Vector 6 in
      let J_ephoto_source := vmmul (r:=4) Jet (J_transed_source delta mean_A) : Vector 6 in
      {| sum_errors := sum;
         Hs_target :=
           alter (fun X => madd X (outer (vscale_r J_ephoto_target w) J_ephoto_target))
                 thread_num (Hs_target acc);
         Hs_source :=
           alter (fun X => madd X (outer (vscale_r J_ephoto_source w) J_ephoto_source))
                 thread_num (Hs_source acc);
         Hs_target_source :=
           alter (fun X => madd X (outer (vscale_r J_ephoto_target w) J_ephoto_source))
                 thread_num (Hs_target_source acc);
         bs_target :=
           alter (fun x => vadd x (vscale_r (vscale_r J_ephoto_target w) e))
                 thread_num (bs_target acc);
         bs_source :=
           alter (fun x => vadd x (vscale_r (vscale_r J_ephoto_source w) e))
                 thread_num (bs_source acc) |}.

(** Lines 114-116: the cache is rebuilt when the array has not the size
    of the source. *)
Definition ensure_correspondences (f : t) (delta : Isometry3d) : t * list (Vector 4) :=
  if negb (length (correspondences f) =? frame.size (source f))%nat
  then update_correspondences f delta
  else (f, []).

(** Lines 118-193: the accumulators after the loop over the source. *)
Definition accumulate (f : t) (delta : Isometry3d) (o : Outputs) : Accumulators :=
  foldl (evaluate_point f delta o)
        (init_accumulators (num_threads f) o)
        (seq 0 (frame.size (source f))).

(** What a call of [evaluate] leaves behind. *)
Record result := {
  cost : double;
  outputs : Outputs;
  factor : t;
  queries : list (Vector 4)
}.

(** [evaluate(delta, H_target, H_source, H_target_source, b_target,
    b_source)]. *)
Definition evaluate (f : t) (delta : Isometry3d) (o : Outputs) : result :=
  let '(f1, qs) := ensure_correspondences f delta in
  let acc := accumulate f1 delta o in
  {| cost := sum_errors acc;
     outputs := write_outputs (num_threads f1) acc o;
     factor := f1;
     queries := qs |}.

End Factor.

Arguments t TargetFrame SourceFrame IntensityGradients : clear implicits.

End IntegratedColorConsistencyFactor.

(** ** Vocabulary of the statements *)

Module Props.
Import Eigen.
Local Open Scope Qc_scope.

(** Squared distance of two points over their three space coordinates. *)
Definition sq_dist3 (p q : Vector 4) : double :=
  sum_upto 3 (fun l => (p l - q l) * (p l - q l)).


(** A search that answers with a point of the frame [c] nearest to the
    query, and with its squared distance. *)
Definition exact_search {Frame} `{frame.traits Frame} (c : Frame)
    (tree : NearestNeighborSearch) : Prop :=
  forall q max_sq_dist,
    (0 < num_found (knn_search tree q 1 max_sq_dist))%nat ->
    exists k : nat,
      k_index (knn_search tree q 1 max_sq_dist) = Z.of_nat k /\
      (k < frame.size c)%nat /\
      k_sq_dist (knn_search tree q 1 max_sq_dist) = sq_dist3 q (frame.point c k) /\
      forall j, (j < frame.size c)%nat ->
        k_sq_dist (knn_search tree q 1 max_sq_dist) <= sq_dist3 q (frame.point c j).

(** The fourth row and the fourth column of a 4x4 matrix are zero. *)
Definition zero_homogeneous (W : Matrix 4 4) : Prop :=
  forall i, (i < 4)%nat -> W i 3%nat = 0 /\ W 3%nat i = 0.

(** The weight of two identity covariances: one half on the three space
    coordinates, zero elsewhere. *)
Definition diag_half (W : Matrix 4 4) : Prop :=
  forall r s, (r < 4)%nat -> (s < 4)%nat ->
    W r s = if ((r =? s) && (r <? 3))%nat then half else 0.

(** Accumulators with a zero cost and zero partial bias sums. *)
Definition zero_cost_and_bias (acc : Accumulators) : Prop :=
  sum_errors acc = 0
  /\ Forall (fun x => veq x vZero) (bs_target acc)
  /\ Forall (fun x => veq x vZero) (bs_source acc).

(** All five blocks are present. *)
Definition all_blocks (o : Outputs) (P : Matrix 6 6 -> Matrix 6 6 -> Matrix 6 6 ->
                                          Vector 6 -> Vector 6 -> Prop) : Prop :=
  exists Ht Hs Hts bt bs,
    o = {| H_target := Some Ht; H_source := Some Hs; H_target_source := Some Hts;
           b_target := Some bt; b_source := Some bs |} /\
    P Ht Hs Hts bt bs.

(** All five blocks are present and zero. *)
Definition zero_blocks (o : Outputs) : Prop :=
  all_blocks o (fun Ht Hs Hts bt bs =>
    meq Ht Zero /\ meq Hs Zero /\ meq Hts Zero /\ veq bt vZero /\ veq bs vZero).

(** The two bias blocks are present and zero. *)
Definition zero_bias (o : Outputs) : Prop :=
  all_blocks o (fun _ _ _ bt bs => veq bt vZero /\ veq bs vZero).

End Props.

(** ** A reference frame type and a reference nearest-neighbour search

    A point cloud stored as lists, a linear-scan search over its points and
    rational stand-ins for the two library functions: the inputs on which
    the examples below run the factors. *)

Module Sample.
Import Eigen Props.
Local Open Scope Qc_scope.

Definition of_Z (z : Z) : double := Q2Qc (inject_Z z).

(** The vector with the given integer coordinates. *)
Definition vec {n} (l : list Z) : Vector n := fun i => of_Z (default 0%Z (l !! i)).

Record cloud := {
  points : list (Vector 4);
  normals : list (Vector 4);
  covs : list (Matrix 4 4);
  intensities : list double
}.

#[export] Instance cloud_traits : frame.traits cloud := {|
  frame.size c := length (points c);
  frame.has_points c := true;
  frame.has_normals c := (length (normals c) =? length (points c))%nat;
  frame.has_covs c := (length (covs c) =? length (points c))%nat;
  frame.has_intensities c := (length (intensities c) =? length (points c))%nat;
  frame.point c i := default vZero (points c !! i);
  frame.normal c i := default vZero (normals c !! i);
  frame.cov c i := default Zero (covs c !! i);
  frame.intensity c i := default 0 (intensities c !! i)
|}.

#[export] Instance gradients_traits : frame.gradient_traits (list (Vector 4)) := {|
  frame.intensity_gradient g i := default vZero (g !! i)
|}.

(** Linear scan: the first point at the least squared distance from [q]
    among [pts], numbered from [i], given the best so far. *)
Fixpoint nearest_from (q : Vector 4) (pts : list (Vector 4)) (i : nat)
    (best : option (nat * double)) : option (nat * double) :=
  match pts with
  | [] => best
  | p :: rest =>
      let d := sq_dist3 q p in
      nearest_from q rest (S i)
        (match best with
         | Some (_, db) => if ltb d db then Some (i, d) else best
         | None => Some (i, d)
         end)
  end.

(** The best candidate so far, over the points already scanned. *)
Definition best_of (q : Vector 4) (seen : list (Vector 4)) (best : option (nat * double))
    : Prop :=
  match best with
  | None => seen = []
  | Some (k, d) =>
      exists p, seen !! k = Some p /\ d = sq_dist3 q p
                /\ forall j p', seen !! j = Some p' -> d <= sq_dist3 q p'
  end.

(** The output cells as the callers initialise them. *)
Definition not_found : knn_result :=
  {| num_found := 0; k_index := size_t_max; k_sq_dist := - (1) |}.

(** A search that reports the nearest point when it lies within
    [max_sq_dist], and nothing otherwise. *)
Definition linear_search (pts : list (Vector 4)) : NearestNeighborSearch :=
  {| knn_search q k max_sq_dist :=
       match nearest_from q pts 0 None with
       | Some (i, d) =>
           if ltb d max_sq_dist
           then {| num_found := 1; k_index := Z.of_nat i; k_sq_dist := d |}
           else not_found
       | None => not_found
       end |}.

(** Rational stand-ins for [sqrt] and for the rotation angle: the square
    root is exact on squares of rationals, the angle is the chord
    [sqrt (3 - trace R)], exact at the identity. *)
Definition sqrt_floor (x : double) : double :=
  Q2Qc (Z.sqrt (Qnum x) # Pos.sqrt (Qden x)).

Definition trace3 (R : Matrix 3 3) : double := sum_upto 3 (fun l => R l l).

#[export] Instance libm : Libm := {|
  AngleAxis_angle R := sqrt_floor (of_Z 3 - trace3 R);
  sqrt := sqrt_floor
|}.

(** Translations along x by [1/2], [3/5] and [6/5], and the quarter turn
    about z. *)
Definition shift_x (q : Q) : Isometry3d :=
  {| linear := Identity; translation := fun i => if (i =? 0)%nat then Q2Qc q else 0 |}.

Definition quarter_turn : Isometry3d :=
  {| linear := fun i j =>
       match i, j with
       | O, S O => - (1)
       | S O, O => 1
       | S (S O), S (S O) => 1
       | _, _ => 0
       end;
     translation := vZero |}.

(** Two points with identity covariances, unit normals along z and
    intensities. *)
Definition two_points : cloud :=
  {| points := [vec [0; 0; 0; 1]%Z; vec [1; 2; 3; 1]%Z];
     normals := [vec [0; 0; 1; 0]%Z; vec [0; 0; 1; 0]%Z];
     covs := [Identity; Identity];
     intensities := [of_Z 2; of_Z 5] |}.

Definition one_point : cloud :=
  {| points := [vec [0; 0; 0; 1]%Z];
     normals := [vec [0; 0; 1; 0]%Z];
     covs := [Identity];
     intensities := [of_Z 2] |}.

(** A source point one unit off the target point along x, and brighter. *)
Definition shifted_point : cloud :=
  {| points := [vec [1; 0; 0; 1]%Z];
     normals := [vec [0; 0; 1; 0]%Z];
     covs := [Identity];
     intensities := [of_Z 7] |}.

(** A point whose covariance is the identity on the space coordinates
    and zero on the fourth row and column. *)
Definition space_identity : Matrix 4 4 :=
  fun i j => if ((i =? j) && (i <? 3))%nat then 1 else 0.

Definition flat_point : cloud :=
  {| points := [vec [0; 0; 0; 1]%Z];
     normals := [vec [0; 0; 1; 0]%Z];
     covs := [space_identity];
     intensities := [of_Z 2] |}.

Definition gradients1 : list (Vector 4) := [vec [3; 0; 0; 0]%Z].

(** Five output blocks holding the given entry everywhere. *)
Definition blocks_of (x : double) : Outputs :=
  {| H_target := Some (fun _ _ => x); H_source := Some (fun _ _ => x);
     H_target_source := Some (fun _ _ => x);
     b_target := Some (fun _ => x); b_source := Some (fun _ => x) |}.

(** Only [H_target] given. *)
Definition only_H_target (x : double) : Outputs :=
  {| H_target := Some (fun _ _ => x); H_source := None; H_target_source := None;
     b_target := None; b_source := None |}.

(** A GICP factor over a cloud matched with itself. *)
Definition gicp (c s : cloud) (max_sq rot trans : double) (last : Isometry3d)
    (corr : list Z) : IntegratedGICPFactor.t cloud cloud :=
  {| IntegratedGICPFactor.num_threads := 1;
     IntegratedGICPFactor.max_correspondence_distance_sq := max_sq;
     IntegratedGICPFactor.correspondence_update_tolerance_rot := rot;
     IntegratedGICPFactor.correspondence_update_tolerance_trans := trans;
     IntegratedGICPFactor.target := c;
     IntegratedGICPFactor.source := s;
     IntegratedGICPFactor.target_tree := linear_search (points c);
     IntegratedGICPFactor.last_correspondence_point := last;
     IntegratedGICPFactor.correspondences := corr;
     IntegratedGICPFactor.mahalanobis := map (fun _ => Zero) corr |}.

Definition color (c s : cloud) (g : list (Vector 4)) (max_sq rot trans : double)
    (last : Isometry3d) (corr : list Z)
    : IntegratedColorConsistencyFactor.t cloud cloud (list (Vector 4)) :=
  {| IntegratedColorConsistencyFactor.num_threads := 1;
     IntegratedColorConsistencyFactor.max_correspondence_distance_sq := max_sq;
     IntegratedColorConsistencyFactor.photometric_term_weight := of_Z 4;
     IntegratedColorConsistencyFactor.correspondence_update_tolerance_rot := rot;
     IntegratedColorConsistencyFactor.correspondence_update_tolerance_trans := trans;
     IntegratedColorConsistencyFactor.target := c;
     IntegratedColorConsistencyFactor.source := s;
     IntegratedColorConsistencyFactor.target_tree := linear_search (points c);
     IntegratedColorConsistencyFactor.target_gradients := g;
     IntegratedColorConsistencyFactor.last_correspondence_point := last;
     IntegratedColorConsistencyFactor.correspondences := corr |}.

End Sample.

(** ** The contribution of one source point to the sums of [evaluate] *)

Module Contribution.
Import Eigen.
Local Open Scope Qc_scope.

(** What one matched source point adds: to the cost, and to slot
    [thread_num] of the five vectors of partial sums. *)
Record t := {
  cost : double;
  Ht : Matrix 6 6;
  Hs : Matrix 6 6;
  Hts : Matrix 6 6;
  bt : Vector 6;
  bs : Vector 6
}.

(** The additions of one iteration, on thread 0. *)
Definition add (c : t) (acc : Accumulators) : Accumulators :=
  {| sum_errors := sum_errors acc + cost c;
     Hs_target := alter (fun X => madd X (Ht c)) 0%nat (Hs_target acc);
     Hs_source := alter (fun X => madd X (Hs c)) 0%nat (Hs_source acc);
     Hs_target_source := alter (fun X => madd X (Hts c)) 0%nat (Hs_target_source acc);
     bs_target := alter (fun x => vadd x (bt c)) 0%nat (bs_target acc);
     bs_source := alter (fun x => vadd x (bs c)) 0%nat (bs_source acc) |}.

(** An unmatched point ([None]) adds nothing. *)
Definition apply (oc : option t) (acc : Accumulators) : Accumulators :=
  match oc with
  | None => acc
  | Some c => add c acc
  end.

(** One number of a contribution, zero for an unmatched point. *)
Definition value (sel : t -> double) (oc : option t) : double :=
  match oc with
  | None => 0
  | Some c => sel c
  end.

Section GICP.
Context {TargetFrame SourceFrame : Type}.
Context `{frame.traits TargetFrame} `{frame.traits SourceFrame}.

(** Lines 171-211 of the GICP factor for source point [i]. *)
Definition gicp (f : IntegratedGICPFactor.t TargetFrame SourceFrame)
    (delta : Isometry3d) (i : nat) : option t :=
  let target_index := corr_at (IntegratedGICPFactor.correspondences f) i in
  if (target_index <? 0)%Z then None
  else
    let mean_A := frame.point (IntegratedGICPFactor.source f) i in
    let error := IntegratedGICPFactor.error_of f delta i target_index in
    let W := IntegratedGICPFactor.mahalanobis_at f i in
    let Jt := IntegratedGICPFactor.J_target (transform delta mean_A) in
    let Js := IntegratedGICPFactor.J_source delta mean_A in
    let J_target_mahalanobis := mmul (k:=4) (transpose Jt) W in
    let J_source_mahalanobis := mmul (k:=4) (transpose Js) W in
    Some {| cost := IntegratedGICPFactor.point_cost W error;
            Ht := mmul (k:=4) J_target_mahalanobis Jt;
            Hs := mmul (k:=4) J_source_mahalanobis Js;
            Hts := mmul (k:=4) J_target_mahalanobis Js;
            bt := mvmul (c:=4) J_target_mahalanobis error;
            bs := mvmul (c:=4) J_source_mahalanobis error |}.

End GICP.

Section Color.
Context {TargetFrame SourceFrame IntensityGradients : Type}.
Context `{frame.traits TargetFrame} `{frame.traits SourceFrame}
        `{frame.gradient_traits IntensityGradients}.

(** Lines 136-192 of the colour consistency factor for source point [i]. *)
Definition color
    (f : IntegratedColorConsistencyFactor.t TargetFrame SourceFrame IntensityGradients)
    (delta : Isometry3d) (i : nat) : option t :=
  let target_index := corr_at (IntegratedColorConsistencyFactor.correspondences f) i in
  if (target_index <? 0)%Z then None
  else
    let mean_A := frame.point (IntegratedColorConsistencyFactor.source f) i in
    let normal_B :=
      frame.normal (IntegratedColorConsistencyFactor.target f) (Z.to_nat target_index) in
    let gradient_B :=
      frame.intensity_gradient (IntegratedColorConsistencyFactor.target_gradients f)
                               (Z.to_nat target_index) in
    let e := IntegratedColorConsistencyFactor.error_photo f delta i target_index in
    let w := IntegratedColorConsistencyFactor.photometric_term_weight f in
    let Jet := IntegratedColorConsistencyFactor.J_ephoto_transed normal_B gradient_B in
    let J_ephoto_target : Vector 6 :=
      vmmul (r:=4) Jet
            (IntegratedColorConsistencyFactor.J_transed_target (transform delta mean_A)) in
    let J_ephoto_source : Vector 6 :=
      vmmul (r:=4) Jet (IntegratedColorConsistencyFactor.J_transed_source delta mean_A) in
    Some {| cost := half * e * w * e;
            Ht := outer (vscale_r J_ephoto_target w) J_ephoto_target;
            Hs := outer (vscale_r J_ephoto_source w) J_ephoto_source;
            Hts := outer (vscale_r J_ephoto_target w) J_ephoto_source;
            bt := vscale_r (vscale_r J_ephoto_target w) e;
            bs := vscale_r (vscale_r J_ephoto_source w) e |}.

End Color.

End Contribution.

(** ** Further vocabulary *)

Module Shapes.
Import Eigen.
Local Open Scope Qc_scope.

(** A vector of [T] partial sums whose slot 0 holds [x], entry by entry,
    and whose other slots hold zero. *)
Definition slot0_matrix (T : nat) (l : list (Matrix 6 6)) (X : Matrix 6 6) : Prop :=
  exists X0, l = X0 :: replicate (T - 1) Zero /\ meq X0 X.
Definition slot0_vector (T : nat) (l : list (Vector 6)) (x : Vector 6) : Prop :=
  exists x0, l = x0 :: replicate (T - 1) vZero /\ veq x0 x.

(** The sums over the first [m] source points, entry by entry. *)
Definition matrix_sum (m : nat) (g : nat -> option Contribution.t)
    (sel : Contribution.t -> Matrix 6 6) : Matrix 6 6 :=
  fun a b => sum_upto m (fun i => Contribution.value (fun c => sel c a b) (g i)).
Definition vector_sum (m : nat) (g : nat -> option Contribution.t)
    (sel : Contribution.t -> Vector 6) : Vector 6 :=
  fun a => sum_upto m (fun i => Contribution.value (fun c => sel c a) (g i)).
Definition cost_sum (m : nat) (g : nat -> option Contribution.t) : double :=
  sum_upto m (fun i => Contribution.value Contribution.cost (g i)).

(** Accumulators that hold the sums over the first [m] source points. *)
Definition holds_sums (T m : nat) (g : nat -> option Contribution.t)
    (acc : Accumulators) : Prop :=
  sum_errors acc = cost_sum m g
  /\ slot0_matrix T (Hs_target acc) (matrix_sum m g Contribution.Ht)
  /\ slot0_matrix T (Hs_source acc) (matrix_sum m g Contribution.Hs)
  /\ slot0_matrix T (Hs_target_source acc) (matrix_sum m g Contribution.Hts)
  /\ slot0_vector T (bs_target acc) (vector_sum m g Contribution.bt)
  /\ slot0_vector T (bs_source acc) (vector_sum m g Contribution.bs).

(** A square matrix equal to its transpose. *)
Definition symmetric {n} (M : Matrix n n) : Prop :=
  forall i j, (i < n)%nat -> (j < n)%nat -> M i j = M j i.

(** Every entry of the array is [-1] or an index below [n]. *)
Definition in_range (n : nat) (correspondences : list Z) : Prop :=
  Forall (fun c => c = (-1)%Z \/ (0 <= c < Z.of_nat n)%Z) correspondences.

(** A search that reports indices below [n]. *)
Definition bounded_search (n : nat) (tree : NearestNeighborSearch) : Prop :=
  forall q max_sq_dist,
    (0 < num_found (knn_search tree q 1 max_sq_dist))%nat ->
    (0 <= k_index (knn_search tree q 1 max_sq_dist) < Z.of_nat n)%Z.

End Shapes.

(** ** Further reference inputs *)

Module MoreSamples.
Import Eigen Sample.
Local Open Scope Qc_scope.

Definition empty_cloud : cloud :=
  {| points := []; normals := []; covs := []; intensities := [] |}.

(** An intensity gradient along the normal (0, 0, 1) of [one_point]. *)
Definition gradients_along_normal : list (Vector 4) := [vec [0; 0; 3; 0]%Z].

(** A GICP factor with no thread. *)
Definition gicp_no_thread : IntegratedGICPFactor.t cloud cloud :=
  {| IntegratedGICPFactor.num_threads := 0;
     IntegratedGICPFactor.max_correspondence_distance_sq := of_Z 100;
     IntegratedGICPFactor.correspondence_update_tolerance_rot := 0;
     IntegratedGICPFactor.correspondence_update_tolerance_trans := 0;
     IntegratedGICPFactor.target := one_point;
     IntegratedGICPFactor.source := shifted_point;
     IntegratedGICPFactor.target_tree := linear_search (points one_point);
     IntegratedGICPFactor.last_correspondence_point := Isometry3d_Identity;
     IntegratedGICPFactor.correspondences := [];
     IntegratedGICPFactor.mahalanobis := [] |}.

(** The colour consistency factor the constructor returns for
    [two_points] matched with itself. *)
Definition constructed_color
    : IntegratedColorConsistencyFactor.t cloud cloud (list (Vector 4)) :=
  {| IntegratedColorConsistencyFactor.num_threads := 1;
     IntegratedColorConsistencyFactor.max_correspondence_distance_sq := 1;
     IntegratedColorConsistencyFactor.photometric_term_weight := 1;
     IntegratedColorConsistencyFactor.correspondence_update_tolerance_rot := 0;
     IntegratedColorConsistencyFactor.correspondence_update_tolerance_trans := 0;
     IntegratedColorConsistencyFactor.target := two_points;
     IntegratedColorConsistencyFactor.source := two_points;
     IntegratedColorConsistencyFactor.target_tree := linear_search (points two_points);
     IntegratedColorConsistencyFactor.target_gradients := gradients1;
     IntegratedColorConsistencyFactor.last_correspondence_point := Isometry3d_Identity;
     IntegratedColorConsistencyFactor.correspondences := [] |}.

End MoreSamples.

(** * Properties *)

(** ** Numbers *)

Section Numbers.
Import Eigen.
Local Open Scope Qc_scope.

Lemma ltb_lt (a b : double) : ltb a b = true <-> a < b.
Proof.
  unfold ltb. rewrite Qclt_alt. destruct (a ?= b); split; congruence.
Qed.

Lemma ltb_ge (a b : double) : ltb a b = false <-> b <= a.
Proof.
  split.
  - intros E. apply Qcnot_lt_le. intros L. apply ltb_lt in L. congruence.
  - intros L. destruct (ltb a b) eqn:E; [|done].
    apply ltb_lt in E. exfalso. exact (Qcle_not_lt _ _ L E).
Qed.

Lemma size_t_to_long_small (k : Z) : (0 <= k < 2 ^ 63)%Z -> size_t_to_long k = k.
Proof.
  intros Hk. unfold size_t_to_long. rewrite Z.mod_small; lia.
Qed.

Lemma size_t_to_long_max : size_t_to_long size_t_max = (-1)%Z.
Proof. reflexivity. Qed.

Lemma Q_square_zero (q : Q) : (q * q <= 0)%Q -> (q == 0)%Q.
Proof.
  intros Hle.
  destruct (Q_dec q 0) as [[L | L] | E]; [exfalso; nra | exfalso; nra | exact E].
Qed.

Lemma Qc_sum_squares_zero (a b c : double) :
  0 + a * a + b * b + c * c <= 0 -> a = 0 /\ b = 0 /\ c = 0.
Proof.
  destruct a as [a Ha], b as [b Hb], c as [c Hc].
  unfold Qcle, Qcplus, Qcmult. cbn. rewrite !Qred_correct. intros Hle.
  repeat split; apply Qc_is_canon; cbn; change (Qred 0) with 0%Q;
    apply Q_square_zero; nra.
Qed.

End Numbers.

(** [ring] on entries: both sides are first given a head symbol of
    [Qc], whatever alias their type is written with. *)
Lemma Qc_eq_plus_zero (a b : Qc) : (a + 0 = b + 0)%Qc -> a = b.
Proof. rewrite !Qcplus_0_r. auto. Qed.

Ltac dring := apply Qc_eq_plus_zero; ring.

(** ** Arrays filled by a loop over [0 .. n - 1] *)

Section Arrays.

Lemma seq_map_length {A} (g : nat -> A) m : length (map g (seq 0 m)) = m.
Proof. rewrite length_map, length_seq. reflexivity. Qed.

Lemma seq_map_lookup {A} (g : nat -> A) m i :
  (i < m)%nat -> map g (seq 0 m) !! i = Some (g i).
Proof.
  intros Hi. change (map g (seq 0 m)) with (g <$> seq 0 m).
  rewrite list_lookup_fmap, lookup_seq_lt by lia. reflexivity.
Qed.

(** Writing cell [m] of an array whose first [m] cells were written. *)
Lemma insert_after_prefix {A} (l1 l0 : list A) (m : nat) (x y : A) :
  length l1 = m -> l0 !! m = Some y ->
  <[m := x]> (l1 ++ drop m l0) = (l1 ++ [x]) ++ drop (S m) l0.
Proof.
  intros Hlen Hy. rewrite (drop_S _ _ _ Hy).
  rewrite insert_app_r_alt by lia.
  rewrite Hlen, Nat.sub_diag. cbn. rewrite <- app_assoc. reflexivity.
Qed.

End Arrays.

(** ** The 4x4 inverse *)

Section Inverse.
Import Eigen.
Local Open Scope Qc_scope.

Lemma sum4_over (a0 a1 a2 a3 c0 c1 c2 c3 d r : Qc) :
  d <> 0 ->
  0 + a0 * c0 + a1 * c1 + a2 * c2 + a3 * c3 = r * d ->
  0 + a0 * (c0 / d) + a1 * (c1 / d) + a2 * (c2 / d) + a3 * (c3 / d) = r.
Proof.
  intros Hd E.
  transitivity ((0 + a0 * c0 + a1 * c1 + a2 * c2 + a3 * c3) / d); [field; exact Hd|].
  rewrite E. field. exact Hd.
Qed.

Lemma over_sum4 (a0 a1 a2 a3 c0 c1 c2 c3 d r : Qc) :
  d <> 0 ->
  0 + c0 * a0 + c1 * a1 + c2 * a2 + c3 * a3 = r * d ->
  0 + c0 / d * a0 + c1 / d * a1 + c2 / d * a2 + c3 / d * a3 = r.
Proof.
  intros Hd E.
  transitivity ((0 + c0 * a0 + c1 * a1 + c2 * a2 + c3 * a3) / d); [field; exact Hd|].
  rewrite E. field. exact Hd.
Qed.

(** [inverse] is the inverse: for a matrix of non-zero determinant,
    [A * A.inverse()] and [A.inverse() * A] are the identity. *)
Lemma inverse_correct (A : Matrix 4 4) :
  det4 A <> 0 ->
  meq (mmul (k:=4) A (inverse A)) Identity /\ meq (mmul (k:=4) (inverse A) A) Identity.
Proof.
  intros Hdet. split; intros i j Hi Hj.
  - destruct i as [|[|[|[|i]]]]; try lia; destruct j as [|[|[|[|j]]]]; try lia;
      cbv [mmul inverse Identity Nat.eqb sum_upto];
      apply sum4_over; try exact Hdet;
      cbv [det4 cofactor det3 minor skip sign sum_upto Nat.even Nat.add Nat.ltb Nat.leb];
      dring.
  - destruct i as [|[|[|[|i]]]]; try lia; destruct j as [|[|[|[|j]]]]; try lia;
      cbv [mmul inverse Identity Nat.eqb sum_upto];
      apply over_sum4; try exact Hdet;
      cbv [det4 cofactor det3 minor skip sign sum_upto Nat.even Nat.add Nat.ltb Nat.leb];
      dring.
Qed.

End Inverse.

(** ** Construction *)

Section Construction.
Import Eigen.
Context {TargetFrame SourceFrame IntensityGradients : Type}.
Context `{frame.traits TargetFrame} `{frame.traits SourceFrame}
        `{frame.gradient_traits IntensityGradients}.

(** A factor that was constructed starts with an empty cache, zero
    tolerances, a distance bound of 1 and one thread. *)
Lemma gicp_make_starts_empty (target : TargetFrame) (source : SourceFrame) tree uninit
    (f : IntegratedGICPFactor.t TargetFrame SourceFrame) :
  IntegratedGICPFactor.make target source tree uninit = Some f ->
  IntegratedGICPFactor.correspondences f = []
  /\ IntegratedGICPFactor.mahalanobis f = []
  /\ IntegratedGICPFactor.num_threads f = 1%nat
  /\ frame.has_points target = true /\ frame.has_covs target = true
  /\ frame.has_points source = true /\ frame.has_covs source = true.
Proof.
  unfold IntegratedGICPFactor.make.
  destruct (frame.has_points target), (frame.has_covs target),
    (frame.has_points source), (frame.has_covs source); cbn; try discriminate.
  intros [= <-]. cbn. auto 10.
Qed.

Lemma color_make_starts_empty (target : TargetFrame) (source : SourceFrame) tree
    (gradients : IntensityGradients) uninit
    (f : IntegratedColorConsistencyFactor.t TargetFrame SourceFrame IntensityGradients) :
  IntegratedColorConsistencyFactor.make target source tree gradients uninit = Some f ->
  IntegratedColorConsistencyFactor.correspondences f = []
  /\ IntegratedColorConsistencyFactor.num_threads f = 1%nat
  /\ frame.has_points target = true /\ frame.has_normals target = true
  /\ frame.has_intensities target = true
  /\ frame.has_points source = true /\ frame.has_intensities source = true.
Proof.
  unfold IntegratedColorConsistencyFactor.make.
  destruct (frame.has_points target), (frame.has_normals target),
    (frame.has_intensities target), (frame.has_points source),
    (frame.has_intensities source); cbn; try discriminate.
  intros [= <-]. cbn. auto 10.
Qed.

End Construction.

(** ** The correspondence cache of the GICP factor *)

Section GICPCache.
Import Eigen IntegratedGICPFactor.
Local Open Scope Qc_scope.
Context {TargetFrame SourceFrame : Type}.
Context `{frame.traits TargetFrame} `{frame.traits SourceFrame} `{Libm}.
Implicit Types (f : t TargetFrame SourceFrame) (delta : Isometry3d).

(** The loop after [m] iterations: the first [m] cells of both arrays are
    written, the others are as they were. *)
Lemma update_loop f delta upd corr0 mah0 qs0 m :
  (m <= length corr0)%nat -> (m <= length mah0)%nat ->
  foldl (update_point f delta upd)
        {| c_correspondences := corr0; c_mahalanobis := mah0; c_queries := qs0 |}
        (seq 0 m)
  = {| c_correspondences :=
         (if upd then map (refreshed_index f delta) (seq 0 m) ++ drop m corr0 else corr0);
       c_mahalanobis :=
         map (fun i => weight_of f delta i (stored_index f delta upd corr0 i)) (seq 0 m)
         ++ drop m mah0;
       c_queries :=
         qs0 ++ (if upd then map (query_point f delta) (seq 0 m) else []) |}.
Proof.
  induction m as [|m IH]; intros Hc Hm.
  - cbn. destruct upd; cbn; rewrite ?app_nil_r; reflexivity.
  - rewrite seq_S, foldl_app, IH by lia. cbn [foldl plus].
    unfold update_point; cbn [c_correspondences c_mahalanobis c_queries].
    destruct (lookup_lt_is_Some_2 corr0 m) as [x Hx]; [lia|].
    destruct (lookup_lt_is_Some_2 mah0 m) as [y Hy]; [lia|].
    rewrite !map_app. cbn [map].
    destruct upd; cbn [stored_index].
    + rewrite (insert_after_prefix _ corr0 m _ x) by auto using seq_map_length.
      rewrite (insert_after_prefix _ mah0 m _ y) by auto using seq_map_length.
      rewrite <- !app_assoc. f_equal. do 3 f_equal.
      unfold corr_at.
      rewrite lookup_app_r by (rewrite seq_map_length; lia).
      rewrite seq_map_length, Nat.sub_diag. reflexivity.
    + rewrite (insert_after_prefix _ mah0 m _ y) by auto using seq_map_length.
      reflexivity.
Qed.

Lemma do_update_false_length f delta :
  do_update f delta = false -> length (correspondences f) = frame.size (source f).
Proof.
  unfold do_update.
  destruct (length (correspondences f) =? frame.size (source f))%nat eqn:E.
  - intros _. apply Nat.eqb_eq. exact E.
  - cbn. discriminate.
Qed.

(** [update_correspondences] in closed form. *)
Lemma update_correspondences_eq f delta :
  let n := frame.size (source f) in
  let upd := do_update f delta in
  let corr := if upd then map (refreshed_index f delta) (seq 0 n) else correspondences f in
  update_correspondences f delta
  = (set_cache f (if upd then delta else last_correspondence_point f) corr
       (map (fun i => weight_of f delta i (corr_at corr i)) (seq 0 n)),
     if upd then map (query_point f delta) (seq 0 n) else []).
Proof.
  intros n upd corr. unfold update_correspondences. fold n. fold upd.
  rewrite update_loop by (rewrite length_resize; lia).
  cbn [c_correspondences c_mahalanobis c_queries app].
  rewrite !drop_ge, !app_nil_r by (rewrite length_resize; lia).
  assert (Hcorr : (if upd then map (refreshed_index f delta) (seq 0 n)
                   else resize n 0%Z (correspondences f)) = corr).
  { subst corr. destruct upd eqn:E; [reflexivity|].
    apply do_update_false_length in E. fold n in E.
    rewrite <- E. apply resize_all. }
  rewrite Hcorr. f_equal. f_equal.
  apply map_ext_in. intros i Hi. apply in_seq in Hi. f_equal.
  subst corr. unfold stored_index. destruct upd eqn:E.
  - unfold corr_at. rewrite seq_map_lookup by lia. reflexivity.
  - apply do_update_false_length in E. fold n in E.
    rewrite <- E, resize_all. reflexivity.
Qed.

(** The tolerance test fails the update exactly when the array has the
    size of the source, a tolerance is positive, and the relative motion
    since the reference pose is below both tolerances. *)
Lemma do_update_false_iff f delta :
  do_update f delta = false <->
  length (correspondences f) = frame.size (source f) /\
  (0 < correspondence_update_tolerance_trans f
   \/ 0 < correspondence_update_tolerance_rot f) /\
  AngleAxis_angle
    (linear (compose (Isometry3d_inverse delta) (last_correspondence_point f)))
    < correspondence_update_tolerance_rot f /\
  norm (n:=3)
    (translation (compose (Isometry3d_inverse delta) (last_correspondence_point f)))
    < correspondence_update_tolerance_trans f.
Proof.
  unfold do_update.
  rewrite <- !ltb_lt, <- Nat.eqb_eq.
  destruct (length (correspondences f) =? frame.size (source f))%nat,
    (ltb 0 (correspondence_update_tolerance_trans f)),
    (ltb 0 (correspondence_update_tolerance_rot f)),
    (ltb _ (correspondence_update_tolerance_rot f)),
    (ltb _ (correspondence_update_tolerance_trans f)); cbn; intuition congruence.
Qed.


End GICPCache.

(** ** The correspondence cache of the colour consistency factor *)

Section ColorCache.
Import Eigen IntegratedColorConsistencyFactor.
Local Open Scope Qc_scope.
Context {TargetFrame SourceFrame IntensityGradients : Type}.
Context `{frame.traits TargetFrame} `{frame.traits SourceFrame}
        `{frame.gradient_traits IntensityGradients} `{Libm}.
Implicit Types (f : t TargetFrame SourceFrame IntensityGradients) (delta : Isometry3d).

Lemma color_update_loop f delta upd corr0 qs0 m :
  (m <= length corr0)%nat ->
  foldl (update_point f delta upd) (corr0, qs0) (seq 0 m)
  = ((if upd then map (refreshed_index f delta) (seq 0 m) ++ drop m corr0 else corr0),
     qs0 ++ (if upd then map (query_point f delta) (seq 0 m) else [])).
Proof.
  induction m as [|m IH]; intros Hc.
  - cbn. destruct upd; cbn; rewrite ?app_nil_r; reflexivity.
  - rewrite seq_S, foldl_app, IH by lia. cbn [foldl plus].
    unfold update_point. destruct upd; [|reflexivity]. cbn [fst snd].
    destruct (lookup_lt_is_Some_2 corr0 m) as [x Hx]; [lia|].
    rewrite (insert_after_prefix _ corr0 m _ x) by auto using seq_map_length.
    rewrite !map_app, <- !app_assoc. reflexivity.
Qed.

Lemma color_do_update_false_length f delta :
  do_update f delta = false -> length (correspondences f) = frame.size (source f).
Proof.
  unfold do_update.
  destruct (length (correspondences f) =? frame.size (source f))%nat eqn:E.
  - intros _. apply Nat.eqb_eq. exact E.
  - cbn. discriminate.
Qed.

(** [update_correspondences] in closed form. *)
Lemma color_update_correspondences_eq f delta :
  let n := frame.size (source f) in
  let upd := do_update f delta in
  update_correspondences f delta
  = (set_cache f delta
       (if upd then map (refreshed_index f delta) (seq 0 n) else correspondences f),
     if upd then map (query_point f delta) (seq 0 n) else []).
Proof.
  intros n upd. unfold update_correspondences. fold n. fold upd.
  rewrite color_update_loop by (rewrite length_resize; lia).
  cbn [fst snd app].
  rewrite drop_ge, app_nil_r by (rewrite length_resize; lia).
  destruct upd eqn:E; [reflexivity|].
  apply color_do_update_false_length in E. fold n in E.
  rewrite <- E, resize_all. reflexivity.
Qed.

Lemma color_do_update_false_iff f delta :
  do_update f delta = false <->
  length (correspondences f) = frame.size (source f) /\
  (0 < correspondence_update_tolerance_trans f
   \/ 0 < correspondence_update_tolerance_rot f) /\
  AngleAxis_angle
    (linear (compose (Isometry3d_inverse delta) (last_correspondence_point f)))
    < correspondence_update_tolerance_rot f /\
  norm (n:=3)
    (translation (compose (Isometry3d_inverse delta) (last_correspondence_point f)))
    < correspondence_update_tolerance_trans f.
Proof.
  unfold do_update.
  rewrite <- !ltb_lt, <- Nat.eqb_eq.
  destruct (length (correspondences f) =? frame.size (source f))%nat,
    (ltb 0 (correspondence_update_tolerance_trans f)),
    (ltb 0 (correspondence_update_tolerance_rot f)),
    (ltb _ (correspondence_update_tolerance_rot f)),
    (ltb _ (correspondence_update_tolerance_trans f)); cbn; intuition congruence.
Qed.

End ColorCache.

(** ** The tolerance test in both factors *)

Section Tolerance.
Import Eigen.
Local Open Scope Qc_scope.
Context {TargetFrame SourceFrame IntensityGradients : Type}.
Context `{frame.traits TargetFrame} `{frame.traits SourceFrame}
        `{frame.gradient_traits IntensityGradients} `{Libm}.

(** The GICP factor moves its reference pose exactly on a refresh. *)
Lemma gicp_reference_pose_follows_refresh
    (f : IntegratedGICPFactor.t TargetFrame SourceFrame) delta :
  IntegratedGICPFactor.last_correspondence_point
    (fst (IntegratedGICPFactor.update_correspondences f delta))
  = (if IntegratedGICPFactor.do_update f delta then delta
     else IntegratedGICPFactor.last_correspondence_point f).
Proof. rewrite update_correspondences_eq. reflexivity. Qed.

(** The colour consistency factor moves it on every call. *)
Lemma color_reference_pose_follows_call
    (f : IntegratedColorConsistencyFactor.t TargetFrame SourceFrame IntensityGradients)
    delta :
  IntegratedColorConsistencyFactor.last_correspondence_point
    (fst (IntegratedColorConsistencyFactor.update_correspondences f delta))
  = delta.
Proof. rewrite color_update_correspondences_eq. reflexivity. Qed.

(** C3. With both tolerances positive and an array of correspondences of
    the size of the source, a call of [update_correspondences] whose
    [delta] lies within both tolerances of the reference pose (rotation
    angle and translation norm of [delta.inverse() *
    last_correspondence_point]) leaves the array as it is and sends no
    nearest-neighbour query, in the GICP factor and in the colour
    consistency factor. *)
Theorem small_motion_skips_refresh
    (fg : IntegratedGICPFactor.t TargetFrame SourceFrame)
    (fc : IntegratedColorConsistencyFactor.t TargetFrame SourceFrame IntensityGradients)
    (delta : Isometry3d) :
  0 < IntegratedGICPFactor.correspondence_update_tolerance_rot fg ->
  0 < IntegratedGICPFactor.correspondence_update_tolerance_trans fg ->
  length (IntegratedGICPFactor.correspondences fg)
    = frame.size (IntegratedGICPFactor.source fg) ->
  AngleAxis_angle
    (linear (compose (Isometry3d_inverse delta)
                     (IntegratedGICPFactor.last_correspondence_point fg)))
    < IntegratedGICPFactor.correspondence_update_tolerance_rot fg ->
  norm (n:=3)
    (translation (compose (Isometry3d_inverse delta)
                          (IntegratedGICPFactor.last_correspondence_point fg)))
    < IntegratedGICPFactor.correspondence_update_tolerance_trans fg ->
  0 < IntegratedColorConsistencyFactor.correspondence_update_tolerance_rot fc ->
  0 < IntegratedColorConsistencyFactor.correspondence_update_tolerance_trans fc ->
  length (IntegratedColorConsistencyFactor.correspondences fc)
    = frame.size (IntegratedColorConsistencyFactor.source fc) ->
  AngleAxis_angle
    (linear (compose (Isometry3d_inverse delta)
                     (IntegratedColorConsistencyFactor.last_correspondence_point fc)))
    < IntegratedColorConsistencyFactor.correspondence_update_tolerance_rot fc ->
  norm (n:=3)
    (translation (compose (Isometry3d_inverse delta)
                          (IntegratedColorConsistencyFactor.last_correspondence_point fc)))
    < IntegratedColorConsistencyFactor.correspondence_update_tolerance_trans fc ->
  (IntegratedGICPFactor.correspondences
     (fst (IntegratedGICPFactor.update_correspondences fg delta))
   = IntegratedGICPFactor.correspondences fg
   /\ snd (IntegratedGICPFactor.update_correspondences fg delta) = [])
  /\
  (IntegratedColorConsistencyFactor.correspondences
     (fst (IntegratedColorConsistencyFactor.update_correspondences fc delta))
   = IntegratedColorConsistencyFactor.correspondences fc
   /\ snd (IntegratedColorConsistencyFactor.update_correspondences fc delta) = []).
Proof.
  intros Gr Gt Gl Ga Gn Cr Ct Cl Ca Cn.
  assert (Eg : IntegratedGICPFactor.do_update fg delta = false)
    by (apply do_update_false_iff; auto).
  assert (Ec : IntegratedColorConsistencyFactor.do_update fc delta = false)
    by (apply color_do_update_false_iff; auto).
  rewrite update_correspondences_eq, color_update_correspondences_eq.
  rewrite Eg, Ec. cbn. auto.
Qed.

End Tolerance.

(** ** The accumulation loops of [evaluate] *)

Section Accumulation.
Import Eigen Props.
Local Open Scope Qc_scope.
Context {TargetFrame SourceFrame IntensityGradients : Type}.
Context `{frame.traits TargetFrame} `{frame.traits SourceFrame}
        `{frame.gradient_traits IntensityGradients} `{Libm}.

Local Abbreviation gicp := (IntegratedGICPFactor.t TargetFrame SourceFrame).
Local Abbreviation color :=
  (IntegratedColorConsistencyFactor.t TargetFrame SourceFrame IntensityGradients).

Lemma init_accumulators_sum n o : sum_errors (init_accumulators n o) = 0.
Proof. unfold init_accumulators. destruct (all_requested o); reflexivity. Qed.

Lemma init_accumulators_partial n o :
  all_requested o = false ->
  init_accumulators n o
  = {| sum_errors := 0; Hs_target := []; Hs_source := []; Hs_target_source := [];
       bs_target := []; bs_source := [] |}.
Proof. unfold init_accumulators. intros ->. reflexivity. Qed.

(** The running cost of the GICP loop does not read the partial sums. *)
Lemma gicp_sum_errors_fold (f : gicp) delta l : forall acc acc',
  sum_errors acc = sum_errors acc' ->
  sum_errors (foldl (IntegratedGICPFactor.evaluate_point f delta) acc l)
  = sum_errors (foldl (IntegratedGICPFactor.evaluate_point f delta) acc' l).
Proof.
  induction l as [|i l IH]; intros acc acc' E; cbn [foldl]; [exact E|].
  apply IH. unfold IntegratedGICPFactor.evaluate_point.
  destruct (corr_at _ i <? 0)%Z; [exact E|].
  do 2 case_bool_decide; cbn; rewrite E; reflexivity.
Qed.


Lemma gicp_cost_any_outputs (f : gicp) delta o o' :
  IntegratedGICPFactor.cost (IntegratedGICPFactor.evaluate f delta o)
  = IntegratedGICPFactor.cost (IntegratedGICPFactor.evaluate f delta o').
Proof.
  unfold IntegratedGICPFactor.evaluate.
  destruct (IntegratedGICPFactor.ensure_correspondences f delta) as [f1 qs].
  cbn. apply gicp_sum_errors_fold. rewrite !init_accumulators_sum. reflexivity.
Qed.



(** With empty vectors of partial sums the GICP loop leaves them empty. *)
Lemma gicp_fold_partial (f : gicp) delta l : forall s,
  exists s',
    foldl (IntegratedGICPFactor.evaluate_point f delta)
          {| sum_errors := s; Hs_target := []; Hs_source := [];
             Hs_target_source := []; bs_target := []; bs_source := [] |} l
    = {| sum_errors := s'; Hs_target := []; Hs_source := [];
         Hs_target_source := []; bs_target := []; bs_source := [] |}.
Proof.
  induction l as [|i l IH]; intros s; cbn [foldl]; [eauto|].
  unfold IntegratedGICPFactor.evaluate_point at 2.
  destruct (corr_at _ i <? 0)%Z; [apply IH|].
  cbn [Hs_target]. rewrite bool_decide_eq_true_2 by reflexivity. apply IH.
Qed.

(** C10. In the GICP factor's [evaluate], when the five output pointers
    are not all non-null (in particular when some are given and some are
    null), the vectors of partial sums stay empty through the loop, the
    blocks that were passed are returned as they were passed, neither
    summed into nor zeroed, and the cost is the one of a call without
    outputs. *)
Theorem gicp_partial_outputs_untouched (f : gicp) (delta : Isometry3d) (o : Outputs) :
  all_requested o = false ->
  let r := IntegratedGICPFactor.evaluate f delta o in
  let acc := IntegratedGICPFactor.accumulate (IntegratedGICPFactor.factor r) delta o in
  IntegratedGICPFactor.outputs r = o
  /\ (Hs_target acc = [] /\ Hs_source acc = [] /\ Hs_target_source acc = []
      /\ bs_target acc = [] /\ bs_source acc = [])
  /\ IntegratedGICPFactor.cost r = sum_errors acc
  /\ IntegratedGICPFactor.cost r
     = IntegratedGICPFactor.cost (IntegratedGICPFactor.evaluate f delta no_outputs).
Proof.
  intros Ho r acc. subst r acc.
  split; [|split; [|split]].
  - unfold IntegratedGICPFactor.evaluate.
    destruct (IntegratedGICPFactor.ensure_correspondences f delta) as [f1 qs].
    cbn. unfold write_outputs. rewrite Ho. reflexivity.
  - unfold IntegratedGICPFactor.evaluate.
    destruct (IntegratedGICPFactor.ensure_correspondences f delta) as [f1 qs].
    cbn [IntegratedGICPFactor.factor]. unfold IntegratedGICPFactor.accumulate.
    rewrite init_accumulators_partial by exact Ho.
    destruct (gicp_fold_partial f1 delta
                (seq 0 (frame.size (IntegratedGICPFactor.source f1))) 0) as [s' ->].
    cbn. auto.
  - unfold IntegratedGICPFactor.evaluate.
    destruct (IntegratedGICPFactor.ensure_correspondences f delta) as [f1 qs].
    reflexivity.
  - apply gicp_cost_any_outputs.
Qed.

End Accumulation.

(** ** Source points without a correspondence *)

Section Unmatched.
Import Eigen Props.
Local Open Scope Qc_scope.
Context {TargetFrame SourceFrame IntensityGradients : Type}.
Context `{frame.traits TargetFrame} `{frame.traits SourceFrame}
        `{frame.gradient_traits IntensityGradients} `{Libm}.

Local Abbreviation gicp := (IntegratedGICPFactor.t TargetFrame SourceFrame).
Local Abbreviation color :=
  (IntegratedColorConsistencyFactor.t TargetFrame SourceFrame IntensityGradients).





(** The sum of the partial sums is zero when each of them is. *)
Lemma merge_matrices_zero n (Xs : list (Matrix 6 6)) :
  Forall (fun X => meq X Zero) Xs -> meq (merge_matrices n Xs) Zero.
Proof.
  intros HX. unfold merge_matrices.
  assert (Hgen : forall l X0, meq X0 Zero ->
            meq (foldl (fun X i => madd X (default Zero (Xs !! i))) X0 l) Zero).
  { induction l as [|k l IH]; intros X0 HX0; cbn [foldl]; [exact HX0|].
    apply IH. intros i j Hi Hj. unfold madd. rewrite HX0 by assumption.
    destruct (Xs !! k) as [Y|] eqn:EY; cbn.
    - rewrite (proj1 (Forall_lookup _ _) HX k Y EY i j) by assumption.
      unfold Zero. dring.
    - unfold Zero. dring. }
  apply Hgen. intros i j _ _. reflexivity.
Qed.

Lemma merge_vectors_zero n (xs : list (Vector 6)) :
  Forall (fun x => veq x vZero) xs -> veq (merge_vectors n xs) vZero.
Proof.
  intros Hx. unfold merge_vectors.
  assert (Hgen : forall l x0, veq x0 vZero ->
            veq (foldl (fun x i => vadd x (default vZero (xs !! i))) x0 l) vZero).
  { induction l as [|k l IH]; intros x0 Hx0; cbn [foldl]; [exact Hx0|].
    apply IH. intros i Hi. unfold vadd. rewrite Hx0 by assumption.
    destruct (xs !! k) as [y|] eqn:Ey; cbn.
    - rewrite (proj1 (Forall_lookup _ _) Hx k y Ey i) by assumption.
      unfold vZero. dring.
    - unfold vZero. dring. }
  apply Hgen. intros i _. reflexivity.
Qed.

(** The blocks written from untouched accumulators are zero. *)
Lemma write_outputs_init_zero n o :
  all_requested o = true -> zero_blocks (write_outputs n (init_accumulators n o) o).
Proof.
  intros Ho. unfold write_outputs, init_accumulators. rewrite Ho.
  cbn. do 5 eexists. split; [reflexivity|].
  assert (HZ : Forall (fun X : Matrix 6 6 => meq X Zero) (replicate n Zero))
    by (apply Forall_replicate; intros i j _ _; reflexivity).
  assert (Hz : Forall (fun x : Vector 6 => veq x vZero) (replicate n vZero))
    by (apply Forall_replicate; intros i _; reflexivity).
  repeat split; auto using merge_matrices_zero, merge_vectors_zero.
Qed.

Lemma gicp_do_update_first (f : gicp) delta :
  length (IntegratedGICPFactor.correspondences f)
    <> frame.size (IntegratedGICPFactor.source f) ->
  IntegratedGICPFactor.do_update f delta = true.
Proof.
  intros Hne. unfold IntegratedGICPFactor.do_update.
  apply Nat.eqb_neq in Hne. rewrite Hne. reflexivity.
Qed.


(** A first call of the GICP factor's [evaluate]: the cache it works on. *)
Lemma gicp_first_call (f : gicp) delta :
  IntegratedGICPFactor.correspondences f = [] ->
  let f1 := fst (IntegratedGICPFactor.ensure_correspondences f delta) in
  IntegratedGICPFactor.source f1 = IntegratedGICPFactor.source f
  /\ IntegratedGICPFactor.target f1 = IntegratedGICPFactor.target f
  /\ IntegratedGICPFactor.num_threads f1 = IntegratedGICPFactor.num_threads f
  /\ forall i, (i < frame.size (IntegratedGICPFactor.source f))%nat ->
       corr_at (IntegratedGICPFactor.correspondences f1) i
       = IntegratedGICPFactor.refreshed_index f delta i
       /\ IntegratedGICPFactor.mahalanobis_at f1 i
          = IntegratedGICPFactor.weight_of f delta i
              (IntegratedGICPFactor.refreshed_index f delta i).
Proof.
  intros Hfresh f1. subst f1. unfold IntegratedGICPFactor.ensure_correspondences.
  destruct (frame.size (IntegratedGICPFactor.source f)) as [|n'] eqn:En.
  - rewrite Hfresh. cbn. repeat split; intros; lia.
  - assert (Hne : length (IntegratedGICPFactor.correspondences f)
                  <> frame.size (IntegratedGICPFactor.source f))
      by (rewrite Hfresh, En; cbn; lia).
    pose proof (gicp_do_update_first f delta Hne) as Eu.
    apply Nat.eqb_neq in Hne. rewrite En in Hne. rewrite Hne. cbn [negb].
    rewrite update_correspondences_eq, Eu, En. cbn [fst].
    repeat split.
    + unfold corr_at. cbn [IntegratedGICPFactor.correspondences
                            IntegratedGICPFactor.set_cache].
      rewrite seq_map_lookup by lia. reflexivity.
    + unfold IntegratedGICPFactor.mahalanobis_at.
      cbn [IntegratedGICPFactor.mahalanobis IntegratedGICPFactor.set_cache].
      rewrite seq_map_lookup by lia. cbn [default]. f_equal.
      unfold corr_at. rewrite seq_map_lookup by lia. reflexivity.
Qed.





End Unmatched.

(** ** The Jacobians of a matched pair *)

Section Jacobians.
Import Eigen.
Local Open Scope Qc_scope.

(** C5 (amended). For every [delta] and every source point, the GICP
    factor's [J_target] has rotational block minus the hat matrix of the
    transformed point and translational block the identity, and its
    [J_source] has rotational block [delta]'s rotation times the hat
    matrix of the source point and translational block minus [delta]'s
    rotation. The colour consistency factor's [J_transed_target] and
    [J_transed_source] carry the opposite signs: the hat matrix and minus
    the identity, minus the rotation times the hat matrix and the
    rotation; entry by entry they are the negatives of the GICP
    factor's. *)
Theorem jacobian_blocks_of_both_factors (delta : Isometry3d) (mean_A : Vector 4) :
  let transed := transform delta mean_A in
  let Jt := IntegratedGICPFactor.J_target transed in
  let Js := IntegratedGICPFactor.J_source delta mean_A in
  let Jt' := IntegratedColorConsistencyFactor.J_transed_target transed in
  let Js' := IntegratedColorConsistencyFactor.J_transed_source delta mean_A in
  (meq (block33 Jt 0 0) (mopp (SO3.Hat (head3 transed)))
   /\ meq (block33 Jt 0 3) Identity
   /\ meq (block33 Js 0 0) (mmul (k:=3) (linear delta) (SO3.Hat (head3 mean_A)))
   /\ meq (block33 Js 0 3) (mopp (linear delta)))
  /\ (meq (block33 Jt' 0 0) (SO3.Hat (head3 transed))
      /\ meq (block33 Jt' 0 3) (mopp Identity)
      /\ meq (block33 Js' 0 0)
             (mopp (mmul (k:=3) (linear delta) (SO3.Hat (head3 mean_A))))
      /\ meq (block33 Js' 0 3) (linear delta))
  /\ (meq Jt' (mopp Jt) /\ meq Js' (mopp Js)).
Proof.
  intros transed Jt Js Jt' Js'.
  subst Jt Js Jt' Js'. clearbody transed.
  unfold IntegratedGICPFactor.J_target, IntegratedGICPFactor.J_source,
    IntegratedColorConsistencyFactor.J_transed_target,
    IntegratedColorConsistencyFactor.J_transed_source.
  repeat split; intros i j Hi Hj.
  all: destruct i as [|[|[|[|i]]]]; try lia;
      destruct j as [|[|[|[|[|[|j]]]]]]; try lia;
      cbv [block33 set_block33 mopp mmul sum_upto Identity
             Nat.leb Nat.ltb Nat.add Nat.sub Nat.eqb andb Zero SO3.Hat head3];
      try reflexivity; dring.
Qed.

End Jacobians.

(** ** The photometric residual *)

Section Photometric.
Import Eigen IntegratedColorConsistencyFactor.
Local Open Scope Qc_scope.
Context {TargetFrame SourceFrame IntensityGradients : Type}.
Context `{frame.traits TargetFrame} `{frame.traits SourceFrame}
        `{frame.gradient_traits IntensityGradients} `{Libm}.


End Photometric.

(** ** The Mahalanobis weight *)

Section Weights.
Import Eigen Props IntegratedGICPFactor.
Local Open Scope Qc_scope.

Lemma zero_homogeneous_entries (C : Matrix 4 4) :
  zero_homogeneous C ->
  C 0%nat 3%nat = 0 /\ C 1%nat 3%nat = 0 /\ C 2%nat 3%nat = 0 /\ C 3%nat 3%nat = 0
  /\ C 3%nat 0%nat = 0 /\ C 3%nat 1%nat = 0 /\ C 3%nat 2%nat = 0.
Proof.
  intros HC.
  pose proof (HC 0%nat ltac:(lia)) as [? ?]. pose proof (HC 1%nat ltac:(lia)) as [? ?].
  pose proof (HC 2%nat ltac:(lia)) as [? ?]. pose proof (HC 3%nat ltac:(lia)) as [? ?].
  auto 10.
Qed.

(** The composed covariance keeps a zero fourth row and column, off the
    diagonal. *)
Lemma composed_covariance_homogeneous (delta : Isometry3d) (Ct Cs : Matrix 4 4) (r : nat) :
  zero_homogeneous Ct -> zero_homogeneous Cs -> (r < 3)%nat ->
  let RCR := set_entry (madd Ct (mmul (k:=4) (mmul (k:=4) (matrix delta) Cs)
                                      (transpose (matrix delta)))) 3 3 1 in
  RCR r 3%nat = 0 /\ RCR 3%nat r = 0.
Proof.
  intros Ht Hs Hr RCR. subst RCR.
  apply zero_homogeneous_entries in Ht, Hs.
  destruct Ht as (t0 & t1 & t2 & t3 & t4 & t5 & t6).
  destruct Hs as (s0 & s1 & s2 & s3 & s4 & s5 & s6).
  destruct r as [|[|[|r]]]; [| | |lia];
    cbv [set_entry madd mmul transpose matrix sum_upto Nat.eqb Nat.ltb Nat.leb andb];
    rewrite ?t0, ?t1, ?t2, ?t4, ?t5, ?t6, ?s0, ?s1, ?s2, ?s3, ?s4, ?s5, ?s6;
    split; dring.
Qed.

(** The cofactors along the fourth row and column of such a matrix
    vanish. *)
Lemma cofactor_homogeneous (A : Matrix 4 4) (r : nat) :
  (forall r, (r < 3)%nat -> A r 3%nat = 0 /\ A 3%nat r = 0) -> (r < 3)%nat ->
  cofactor A 3 r = 0 /\ cofactor A r 3 = 0.
Proof.
  intros HA Hr.
  pose proof (HA 0%nat ltac:(lia)) as [a0 a3].
  pose proof (HA 1%nat ltac:(lia)) as [a1 a4].
  pose proof (HA 2%nat ltac:(lia)) as [a2 a5].
  destruct r as [|[|[|r]]]; [| | |lia];
    cbv [cofactor det3 minor skip sign Nat.even Nat.add Nat.ltb Nat.leb];
    rewrite ?a0, ?a1, ?a2, ?a3, ?a4, ?a5; split; dring.
Qed.

Lemma weight_homogeneous (delta : Isometry3d) (Ct Cs : Matrix 4 4) :
  zero_homogeneous Ct -> zero_homogeneous Cs ->
  zero_homogeneous (mahalanobis_weight delta Ct Cs).
Proof.
  intros Ht Hs i Hi. unfold mahalanobis_weight. cbv zeta.
  destruct (decide (i = 3%nat)) as [->|Hne].
  - cbv [set_entry Nat.eqb andb]. auto.
  - assert (Hi3 : (i < 3)%nat) by lia.
    destruct (cofactor_homogeneous _ i
                (fun r Hr => composed_covariance_homogeneous delta Ct Cs r Ht Hs Hr) Hi3)
      as [c1 c2].
    cbv zeta in c1, c2.
    set (RCR := set_entry (madd Ct _) 3 3 1) in *. clearbody RCR.
    unfold set_entry, inverse.
    replace (i =? 3)%nat with false by (symmetry; apply Nat.eqb_neq; lia).
    cbn [andb]. rewrite Nat.eqb_refl, andb_false_r.
    rewrite c1, c2. unfold Qcdiv. split; apply Qcmult_0_l.
Qed.

Context {TargetFrame SourceFrame : Type}.
Context `{frame.traits TargetFrame} `{frame.traits SourceFrame} `{Libm}.

(** C4 (amended). For every matched source point, the weight stored by
    the GICP factor's [update_correspondences] is the inverse of the
    target covariance plus the [delta]-transformed source covariance
    with entry (3,3) forced to 1, and of that inverse only the entry
    (3,3) is set to zero. When both covariances have a zero fourth row
    and a zero fourth column and the composed matrix is invertible, the
    stored weight has a zero fourth row and a zero fourth column. *)
Theorem gicp_stored_weight (f : t TargetFrame SourceFrame) (delta : Isometry3d)
    (i : nat) :
  let f' := fst (update_correspondences f delta) in
  let c := corr_at (correspondences f') i in
  let target_cov := frame.cov (target f) (Z.to_nat c) in
  let source_cov := frame.cov (source f) i in
  let RCR :=
    set_entry (madd target_cov
                 (mmul (k:=4) (mmul (k:=4) (matrix delta) source_cov)
                       (transpose (matrix delta)))) 3 3 1 in
  (i < frame.size (source f))%nat ->
  (0 <= c)%Z ->
  zero_homogeneous target_cov ->
  zero_homogeneous source_cov ->
  det4 RCR <> 0 ->
  mahalanobis f' !! i = Some (set_entry (inverse RCR) 3 3 0)
  /\ zero_homogeneous (set_entry (inverse RCR) 3 3 0).
Proof.
  intros f' c target_cov source_cov RCR Hi Hc Ht Hs _.
  split.
  - apply Z.ltb_ge in Hc. subst RCR target_cov source_cov. revert Hc. subst c f'.
    rewrite update_correspondences_eq.
    cbn [fst mahalanobis correspondences set_cache]. intros Hc.
    rewrite seq_map_lookup by exact Hi.
    unfold weight_of. rewrite Hc. reflexivity.
  - exact (weight_homogeneous delta target_cov source_cov Ht Hs).
Qed.

End Weights.

(** ** Matrices that agree on their declared size *)

Section Extensionality.
Import Eigen Props.
Local Open Scope Qc_scope.

Lemma sum_upto_ext (k : nat) (f g : nat -> double) :
  (forall l, (l < k)%nat -> f l = g l) -> sum_upto k f = sum_upto k g.
Proof.
  induction k as [|k IH]; intros Hfg; cbn [sum_upto]; [reflexivity|].
  rewrite IH, Hfg by (intros; auto with lia). reflexivity.
Qed.

Lemma det4_ext (A B : Matrix 4 4) : meq A B -> det4 A = det4 B.
Proof.
  intros HAB.
  cbv [det4 cofactor det3 minor skip sign sum_upto Nat.even Nat.add Nat.ltb Nat.leb].
  rewrite !HAB by lia. reflexivity.
Qed.

Lemma cofactor_ext (A B : Matrix 4 4) i j :
  meq A B -> (i < 4)%nat -> (j < 4)%nat -> cofactor A i j = cofactor B i j.
Proof.
  intros HAB Hi Hj.
  destruct i as [|[|[|[|i]]]]; [| | | |lia];
    destruct j as [|[|[|[|j]]]]; try lia;
    cbv [cofactor det3 minor skip sign Nat.even Nat.add Nat.ltb Nat.leb];
    rewrite !HAB by lia; reflexivity.
Qed.

Lemma inverse_ext (A B : Matrix 4 4) : meq A B -> meq (inverse A) (inverse B).
Proof.
  intros HAB i j Hi Hj. unfold inverse.
  rewrite (cofactor_ext A B j i), (det4_ext A B) by assumption. reflexivity.
Qed.

Lemma mahalanobis_weight_ext delta (Ct Ct' Cs Cs' : Matrix 4 4) :
  meq Ct Ct' -> meq Cs Cs' ->
  meq (IntegratedGICPFactor.mahalanobis_weight delta Ct Cs)
      (IntegratedGICPFactor.mahalanobis_weight delta Ct' Cs').
Proof.
  intros Ht Hs. unfold IntegratedGICPFactor.mahalanobis_weight. cbv zeta.
  intros i j Hi Hj. unfold set_entry at 1 3.
  destruct ((i =? 3)%nat && (j =? 3)%nat); [reflexivity|].
  apply inverse_ext; [|assumption..].
  intros a b Ha Hb. unfold set_entry, madd, mmul.
  destruct ((a =? 3)%nat && (b =? 3)%nat); [reflexivity|].
  rewrite Ht by assumption. f_equal.
  apply sum_upto_ext. intros l Hl. f_equal.
  apply sum_upto_ext. intros l' Hl'. rewrite Hs by assumption. reflexivity.
Qed.

(** The weight of two identity covariances under the identity transform. *)
Lemma identity_weight (Ct Cs : Matrix 4 4) i j :
  meq Ct Identity -> meq Cs Identity -> (i < 4)%nat -> (j < 4)%nat ->
  IntegratedGICPFactor.mahalanobis_weight Isometry3d_Identity Ct Cs i j
  = if ((i =? j) && (i <? 3))%nat then half else 0.
Proof.
  intros Ht Hs Hi Hj.
  rewrite (mahalanobis_weight_ext _ _ _ _ _ Ht Hs i j Hi Hj).
  destruct i as [|[|[|[|i]]]]; [| | | |lia];
    destruct j as [|[|[|[|j]]]]; try lia;
    apply Qc_is_canon; vm_compute; reflexivity.
Qed.

End Extensionality.

(** ** The GICP factor on a cloud matched with itself *)

Section IdentityScenario.
Import Eigen Props IntegratedGICPFactor.
Local Open Scope Qc_scope.
Context {Frame : Type} `{frame.traits Frame} `{Libm}.
Implicit Types (f : t Frame Frame).

Lemma identity_transform_point (p : Vector 4) l :
  (l < 3)%nat -> transform Isometry3d_Identity p l = p l.
Proof.
  intros Hl. destruct l as [|[|[|l]]]; [| | |lia];
    cbv [transform Isometry3d_Identity linear translation Identity vZero sum_upto
         Nat.ltb Nat.leb Nat.eqb]; dring.
Qed.

Lemma Qc_minus_zero (a b : Qc) : a - b = 0 -> a = b.
Proof.
  intros E. assert (E' : a = (a - b) + b) by ring. rewrite E' , E. ring.
Qed.

(** A point at squared distance at most zero has the coordinates of the
    query. *)
Lemma sq_dist3_zero (q p : Vector 4) :
  sq_dist3 q p <= 0 -> forall l, (l < 3)%nat -> p l = q l.
Proof.
  unfold sq_dist3. cbn [sum_upto]. intros Hle.
  apply Qc_sum_squares_zero in Hle. destruct Hle as (E0 & E1 & E2).
  intros l Hl. destruct l as [|[|[|l]]]; [| | |lia];
    symmetry; apply Qc_minus_zero; assumption.
Qed.

Lemma sq_dist3_self (q p : Vector 4) :
  (forall l, (l < 3)%nat -> q l = p l) -> sq_dist3 q p = 0.
Proof.
  intros E. unfold sq_dist3. cbn [sum_upto].
  rewrite !E by lia. dring.
Qed.

(** A residual that vanishes on the space coordinates costs nothing under
    such a weight, and pulls no bias. *)
Lemma diag_half_cost (W : Matrix 4 4) (e : Vector 4) :
  diag_half W -> (forall l, (l < 3)%nat -> e l = 0) -> point_cost W e = 0.
Proof.
  intros HW He.
  cbv [point_cost dot vmmul vscale sum_upto].
  rewrite !HW by lia. cbv [Nat.eqb Nat.ltb Nat.leb andb].
  rewrite !He by lia. dring.
Qed.

Lemma diag_half_bias (W : Matrix 4 4) (J : Matrix 4 6) (e : Vector 4) :
  diag_half W -> (forall l, (l < 3)%nat -> e l = 0) ->
  veq (mvmul (c:=4) (mmul (k:=4) (transpose J) W) e) vZero.
Proof.
  intros HW He i Hi.
  cbv [mvmul mmul transpose sum_upto vZero].
  rewrite !HW by lia. cbv [Nat.eqb Nat.ltb Nat.leb andb].
  rewrite !He by lia. dring.
Qed.


Lemma matched_in_identity_scenario f i :
  source f = target f ->
  exact_search (target f) (target_tree f) ->
  (Z.of_nat (frame.size (target f)) < 2 ^ 63)%Z ->
  (i < frame.size (target f))%nat ->
  (0 <= refreshed_index f Isometry3d_Identity i)%Z ->
  exists k : nat,
    refreshed_index f Isometry3d_Identity i = Z.of_nat k
    /\ (k < frame.size (target f))%nat
    /\ forall l, (l < 3)%nat ->
         frame.point (target f) k l = frame.point (source f) i l.
Proof.
  intros Hsrc Hex Hsize Hi.
  unfold refreshed_index, found_index.
  set (q := query_point f Isometry3d_Identity i).
  set (r := knn_search (target_tree f) q 1 (max_correspondence_distance_sq f)).
  destruct ((0 <? num_found r)%nat && ltb (k_sq_dist r) (max_correspondence_distance_sq f))
    eqn:E; [|rewrite size_t_to_long_max; lia].
  intros _. apply andb_true_iff in E. destruct E as [Ef _]. apply Nat.ltb_lt in Ef.
  destruct (Hex q (max_correspondence_distance_sq f) Ef) as (k & Hk & Hlt & Hd & Hmin).
  fold r in Hk, Hd, Hmin.
  exists k. rewrite Hk. split; [apply size_t_to_long_small; lia|]. split; [exact Hlt|].
  assert (Hq : forall l, (l < 3)%nat -> q l = frame.point (source f) i l)
    by (intros l Hl; apply identity_transform_point; exact Hl).
  intros l Hl. rewrite <- Hq by exact Hl.
  apply sq_dist3_zero; [|exact Hl].
  rewrite <- Hd. specialize (Hmin i Hi).
  rewrite (sq_dist3_self q (frame.point (target f) i)) in Hmin; [exact Hmin|].
  intros l' Hl'. rewrite Hq by exact Hl'. rewrite Hsrc. reflexivity.
Qed.

(** One iteration of the loop keeps the cost and the bias sums at zero. *)
Lemma identity_scenario_step f f1 acc i :
  source f = target f ->
  (forall k, (k < frame.size (target f))%nat -> meq (frame.cov (target f) k) Identity) ->
  exact_search (target f) (target_tree f) ->
  (Z.of_nat (frame.size (target f)) < 2 ^ 63)%Z ->
  source f1 = source f -> target f1 = target f ->
  corr_at (correspondences f1) i = refreshed_index f Isometry3d_Identity i ->
  mahalanobis_at f1 i
  = weight_of f Isometry3d_Identity i (refreshed_index f Isometry3d_Identity i) ->
  (i < frame.size (target f))%nat ->
  zero_cost_and_bias acc ->
  zero_cost_and_bias (evaluate_point f1 Isometry3d_Identity acc i).
Proof.
  intros Hsrc Hcov Hex Hsize Hs1 Ht1 Hc Hm Hi (Hsum & Hbt & Hbs).
  unfold evaluate_point. rewrite Hc.
  destruct (refreshed_index f Isometry3d_Identity i <? 0)%Z eqn:Eneg;
    [repeat split; assumption|].
  apply Z.ltb_ge in Eneg.
  destruct (matched_in_identity_scenario f i Hsrc Hex Hsize Hi Eneg)
    as (k & Hk & Hklt & Hpt).
  assert (HW : diag_half (mahalanobis_at f1 i)).
  { rewrite Hm. unfold weight_of. apply Z.ltb_ge in Eneg. rewrite Eneg, Hk, Nat2Z.id.
    intros r s Hr Hs. apply identity_weight; auto.
    rewrite Hsrc. auto. }
  assert (He : forall l, (l < 3)%nat ->
            error_of f1 Isometry3d_Identity i (refreshed_index f Isometry3d_Identity i) l = 0).
  { intros l Hl. unfold error_of, vsub.
    rewrite Hk, Nat2Z.id, Hs1, Ht1, identity_transform_point, Hpt by exact Hl.
    dring. }
  pose proof (diag_half_cost _ _ HW He) as Hcost.
  case_bool_decide; repeat split; cbn [sum_errors bs_target bs_source];
    try (rewrite Hsum, Hcost; dring); try assumption.
  - apply Forall_alter; [exact Hbt|]. intros x _ Hx l Hl. unfold vadd.
    rewrite Hx, (diag_half_bias _ _ _ HW He l Hl) by exact Hl. unfold vZero. dring.
  - apply Forall_alter; [exact Hbs|]. intros x _ Hx l Hl. unfold vadd.
    rewrite Hx, (diag_half_bias _ _ _ HW He l Hl) by exact Hl. unfold vZero. dring.
Qed.

Lemma fold_invariant {A} (P : A -> Prop) (step : A -> nat -> A) (l : list nat) (a : A) :
  (forall a i, In i l -> P a -> P (step a i)) -> P a -> P (foldl step a l).
Proof.
  revert a. induction l as [|i l IH]; intros a Hstep Ha; cbn [foldl]; [exact Ha|].
  apply IH.
  - intros a' k Hk. apply Hstep. right. exact Hk.
  - apply Hstep; [left; reflexivity | exact Ha].
Qed.

Lemma init_zero_cost_and_bias n o : zero_cost_and_bias (init_accumulators n o).
Proof.
  unfold init_accumulators.
  destruct (all_requested o); repeat split; cbn;
    try apply Forall_replicate; try apply Forall_nil_2; intros i _; reflexivity.
Qed.

(** C6 (amended). When the source cloud is the target cloud, every
    covariance is the identity matrix, [delta] is the identity
    transform, the search answers exact nearest-neighbour queries and
    the call is the first on the factor, the GICP factor's [evaluate]
    returns the cost 0, and, when the five blocks are passed, [b_target]
    and [b_source] are zero. Nothing is said of the three Hessian
    blocks: they are the sums of the products of the Jacobians with the
    weights and need not vanish. *)
Theorem gicp_identity_scenario f (o : Outputs) :
  source f = target f ->
  (forall k, (k < frame.size (target f))%nat -> meq (frame.cov (target f) k) Identity) ->
  exact_search (target f) (target_tree f) ->
  (Z.of_nat (frame.size (target f)) < 2 ^ 63)%Z ->
  correspondences f = [] ->
  all_requested o = true ->
  cost (evaluate f Isometry3d_Identity o) = 0
  /\ cost (evaluate f Isometry3d_Identity no_outputs) = 0
  /\ zero_bias (outputs (evaluate f Isometry3d_Identity o)).
Proof.
  intros Hsrc Hcov Hex Hsize Hfresh Ho.
  destruct (gicp_first_call f Isometry3d_Identity Hfresh) as (Hs1 & Ht1 & Hn1 & Hc1).
  assert (Hinv : zero_cost_and_bias
            (accumulate (fst (ensure_correspondences f Isometry3d_Identity))
                        Isometry3d_Identity o)).
  { unfold accumulate. apply fold_invariant; [|apply init_zero_cost_and_bias].
    intros a i Hi Ha. apply in_seq in Hi. rewrite Hs1, Hsrc in Hi.
    destruct (Hc1 i) as [Hc Hm]; [rewrite Hsrc; lia|].
    eapply identity_scenario_step; eauto. lia. }
  assert (Hcost : cost (evaluate f Isometry3d_Identity o) = 0).
  { unfold evaluate.
    destruct (ensure_correspondences f Isometry3d_Identity) as [f1 qs].
    cbn in *. apply Hinv. }
  split; [exact Hcost|]. split.
  - rewrite (gicp_cost_any_outputs f Isometry3d_Identity no_outputs o). exact Hcost.
  - unfold evaluate.
    destruct (ensure_correspondences f Isometry3d_Identity) as [f1 qs].
    cbn in *. unfold write_outputs. rewrite Ho.
    do 5 eexists. split; [reflexivity|].
    destruct Hinv as (_ & Hbt & Hbs).
    split; apply merge_vectors_zero; assumption.
Qed.

End IdentityScenario.

(** ** The reference search *)

Section LinearSearch.
Import Eigen Props Sample.
Local Open Scope Qc_scope.



Lemma nearest_from_best q pts : forall seen best,
  best_of q seen best ->
  best_of q (seen ++ pts) (nearest_from q pts (length seen) best).
Proof.
  induction pts as [|p rest IH]; intros seen best Hb; cbn [nearest_from].
  - rewrite app_nil_r. exact Hb.
  - replace (seen ++ p :: rest) with ((seen ++ [p]) ++ rest)
      by (rewrite <- app_assoc; reflexivity).
    replace (S (length seen)) with (length (seen ++ [p]))
      by (rewrite length_app; cbn; lia).
    apply IH. destruct best as [[k d]|]; cbn [best_of] in *.
    + destruct Hb as (pk & Hk & Hd & Hmin).
      destruct (ltb (sq_dist3 q p) d) eqn:E; cbn [best_of].
      * apply ltb_lt in E. exists p. split; [apply list_lookup_middle; reflexivity|].
        split; [reflexivity|]. intros j p' Hj.
        apply lookup_app_Some in Hj. destruct Hj as [Hj | [_ Hj]].
        -- apply Qclt_le_weak. eapply Qclt_le_trans; [exact E|]. eapply Hmin; eauto.
        -- apply list_lookup_singleton_Some in Hj. destruct Hj as [_ <-].
           apply Qcle_refl.
      * apply ltb_ge in E. exists pk. split; [apply lookup_app_l_Some; exact Hk|].
        split; [exact Hd|]. intros j p' Hj.
        apply lookup_app_Some in Hj. destruct Hj as [Hj | [_ Hj]].
        -- eapply Hmin; eauto.
        -- apply list_lookup_singleton_Some in Hj. destruct Hj as [_ <-]. exact E.
    + subst seen. exists p. split; [reflexivity|]. split; [reflexivity|].
      intros j p' Hj. apply list_lookup_singleton_Some in Hj. destruct Hj as [_ <-].
      apply Qcle_refl.
Qed.

(** The linear scan answers exact nearest-neighbour queries over the
    points of its cloud. *)
Lemma linear_search_exact (c : cloud) : exact_search c (linear_search (points c)).
Proof.
  intros q max_sq_dist. cbn [knn_search linear_search].
  pose proof (nearest_from_best q (points c) [] None eq_refl) as Hb.
  cbn [app length] in Hb.
  destruct (nearest_from q (points c) 0 None) as [[k d]|]; [|cbn; lia].
  destruct (ltb d max_sq_dist); [|cbn; lia].
  cbn [num_found k_index k_sq_dist]. intros _.
  destruct Hb as (p & Hk & Hd & Hmin).
  exists k. split; [reflexivity|].
  split; [apply lookup_lt_Some in Hk; exact Hk|].
  cbn [frame.point cloud_traits]. rewrite Hk. split; [exact Hd|].
  intros j Hj. destruct (lookup_lt_is_Some_2 (points c) j Hj) as [p' Hp'].
  rewrite Hp'. cbn [default]. eapply Hmin; eauto.
Qed.


End LinearSearch.

(** ** The factors run on the reference inputs *)

Section Examples.
Import Eigen Props Sample.
Local Open Scope Qc_scope.

Ltac qc_compute := apply Qc_is_canon; vm_compute; reflexivity.
Ltac qc_differ :=
  let E := fresh in intros E; apply (f_equal this) in E; vm_compute in E; discriminate.

(** C1. The colour consistency factor on one point, both tolerances 1,
    reference pose the identity, then [update_correspondences] with a
    translation of 3/5 along x: the tolerance test skips the refresh (no
    query, the array is unchanged) and yet the reference pose becomes
    the translation, where the GICP factor on the same input keeps the
    identity. A second call with a translation of 6/5, which is 6/5 away
    from the last refresh, is then skipped again by the colour
    consistency factor and refreshed by the GICP factor. *)
Theorem color_reference_pose_moves_without_refresh :
  let fc := color one_point one_point gradients1 1 1 1 Isometry3d_Identity [0%Z] in
  let fg := gicp one_point one_point 1 1 1 Isometry3d_Identity [0%Z] in
  let step1 := shift_x (3 # 5) in
  let step2 := shift_x (6 # 5) in
  let fc1 := fst (IntegratedColorConsistencyFactor.update_correspondences fc step1) in
  let fg1 := fst (IntegratedGICPFactor.update_correspondences fg step1) in
  (IntegratedColorConsistencyFactor.do_update fc step1 = false
   /\ snd (IntegratedColorConsistencyFactor.update_correspondences fc step1) = []
   /\ IntegratedColorConsistencyFactor.correspondences fc1 = [0%Z]
   /\ translation (IntegratedColorConsistencyFactor.last_correspondence_point fc) 0%nat = 0
   /\ translation (IntegratedColorConsistencyFactor.last_correspondence_point fc1) 0%nat
      = Q2Qc (3 # 5))
  /\ (IntegratedGICPFactor.do_update fg step1 = false
      /\ translation (IntegratedGICPFactor.last_correspondence_point fg1) 0%nat = 0)
  /\ (IntegratedColorConsistencyFactor.do_update fc1 step2 = false
      /\ IntegratedGICPFactor.do_update fg1 step2 = true).
Proof.
  cbv zeta. repeat split; vm_compute; reflexivity.
Qed.

(** C3, on an input: a translation of 1/2 under tolerances of 1. *)
Lemma small_motion_skips_refresh_witness :
  let fg := gicp one_point one_point 1 1 1 Isometry3d_Identity [0%Z] in
  let fc := color one_point one_point gradients1 1 1 1 Isometry3d_Identity [0%Z] in
  let delta := shift_x (1 # 2) in
  (IntegratedGICPFactor.correspondences
     (fst (IntegratedGICPFactor.update_correspondences fg delta)) = [0%Z]
   /\ snd (IntegratedGICPFactor.update_correspondences fg delta) = [])
  /\
  (IntegratedColorConsistencyFactor.correspondences
     (fst (IntegratedColorConsistencyFactor.update_correspondences fc delta)) = [0%Z]
   /\ snd (IntegratedColorConsistencyFactor.update_correspondences fc delta) = []).
Proof.
  cbv zeta.
  apply (small_motion_skips_refresh
           (gicp one_point one_point 1 1 1 Isometry3d_Identity [0%Z])
           (color one_point one_point gradients1 1 1 1 Isometry3d_Identity [0%Z])
           (shift_x (1 # 2))); vm_compute; reflexivity.
Defined.

(** C4, the claim as stated fails: with 4x4 identity covariances (a
    non-zero entry (3,3)) and a [delta] that translates by -1 along x,
    the stored weight of the matched pair has entry (0,3) equal to 1/2:
    its fourth column is not zero. *)
Lemma stored_weight_with_identity_covariances :
  let f := gicp one_point shifted_point (of_Z 100) 0 0 Isometry3d_Identity [] in
  let f' := fst (IntegratedGICPFactor.update_correspondences f (shift_x (-1))) in
  IntegratedGICPFactor.correspondences f' = [0%Z]
  /\ IntegratedGICPFactor.mahalanobis_at f' 0 0%nat 3%nat = half
  /\ ~ zero_homogeneous (IntegratedGICPFactor.mahalanobis_at f' 0).
Proof.
  cbv zeta. split; [vm_compute; reflexivity|]. split; [qc_compute|].
  intros HW. destruct (HW 0%nat ltac:(lia)) as [E _]. revert E. qc_differ.
Qed.

(** C4 (amended), on an input: covariances with a zero fourth row and
    column. *)
Lemma gicp_stored_weight_witness :
  let f := gicp flat_point flat_point (of_Z 100) 0 0 Isometry3d_Identity [] in
  let delta := shift_x (1 # 2) in
  let f' := fst (IntegratedGICPFactor.update_correspondences f delta) in
  let c := corr_at (IntegratedGICPFactor.correspondences f') 0 in
  let target_cov := frame.cov (IntegratedGICPFactor.target f) (Z.to_nat c) in
  let source_cov := frame.cov (IntegratedGICPFactor.source f) 0 in
  let RCR :=
    set_entry (madd target_cov
                 (mmul (k:=4) (mmul (k:=4) (matrix delta) source_cov)
                       (transpose (matrix delta)))) 3 3 1 in
  IntegratedGICPFactor.mahalanobis f' !! 0%nat = Some (set_entry (inverse RCR) 3 3 0)
  /\ zero_homogeneous (set_entry (inverse RCR) 3 3 0).
Proof.
  cbv zeta.
  apply (gicp_stored_weight
           (gicp flat_point flat_point (of_Z 100) 0 0 Isometry3d_Identity [])
           (shift_x (1 # 2)) 0).
  - vm_compute. lia.
  - vm_compute. discriminate.
  - intros i Hi. destruct i as [|[|[|[|i]]]]; [| | | |lia]; split; qc_compute.
  - intros i Hi. destruct i as [|[|[|[|i]]]]; [| | | |lia]; split; qc_compute.
  - qc_differ.
Defined.

(** C5, the claim as stated fails: for the quarter turn about z and the
    point (1, 2, 3), the blocks the claim gives for the GICP factor,
    with minus the identity as translational block of [J_source], and
    equal Jacobians in both factors do not hold together: entry (0,3) of
    the colour consistency factor's [J_transed_target] is -1, that of
    the GICP factor's [J_target] is 1. *)
Lemma claimed_jacobian_blocks_fail :
  let delta := quarter_turn in
  let mean_A : Vector 4 := vec [1; 2; 3; 1]%Z in
  let transed := transform delta mean_A in
  ~ (meq (block33 (IntegratedGICPFactor.J_target transed) 0 0)
         (mopp (SO3.Hat (head3 transed)))
     /\ meq (block33 (IntegratedGICPFactor.J_target transed) 0 3) Identity
     /\ meq (block33 (IntegratedGICPFactor.J_source delta mean_A) 0 0)
            (mmul (k:=3) (linear delta) (SO3.Hat (head3 mean_A)))
     /\ meq (block33 (IntegratedGICPFactor.J_source delta mean_A) 0 3) (mopp Identity)
     /\ meq (IntegratedColorConsistencyFactor.J_transed_target transed)
            (IntegratedGICPFactor.J_target transed)
     /\ meq (IntegratedColorConsistencyFactor.J_transed_source delta mean_A)
            (IntegratedGICPFactor.J_source delta mean_A)).
Proof.
  cbv zeta. intros (_ & _ & _ & _ & Ht & _).
  specialize (Ht 0%nat 3%nat ltac:(lia) ltac:(lia)). revert Ht. qc_differ.
Qed.

(** The translational block of the GICP factor's [J_source] is minus the
    rotation: its first row is (0, 1, 0) for the quarter turn, not
    (-1, 0, 0). *)
Lemma gicp_source_translation_block_is_not_minus_identity :
  IntegratedGICPFactor.J_source quarter_turn (vec [1; 2; 3; 1]%Z) 0%nat 3%nat = 0
  /\ IntegratedGICPFactor.J_source quarter_turn (vec [1; 2; 3; 1]%Z) 0%nat 4%nat = 1.
Proof. split; qc_compute. Qed.

(** C6, the claim as stated fails: on two points matched with
    themselves, identity covariances and the identity transform, the
    cost is 0 and entry (3,3) of [H_target] is 1 (one half from each
    point): the Hessian blocks are not zero. *)
Lemma identity_scenario_hessian_not_zero :
  let f := gicp two_points two_points 1 0 0 Isometry3d_Identity [] in
  let r := IntegratedGICPFactor.evaluate f Isometry3d_Identity (blocks_of (of_Z 9)) in
  IntegratedGICPFactor.cost r = 0
  /\ IntegratedGICPFactor.correspondences (IntegratedGICPFactor.factor r) = [0%Z; 1%Z]
  /\ default Zero (H_target (IntegratedGICPFactor.outputs r)) 3%nat 3%nat = 1
  /\ ~ zero_blocks (IntegratedGICPFactor.outputs r).
Proof.
  cbv zeta.
  assert (Hv : default Zero
                 (H_target (IntegratedGICPFactor.outputs
                    (IntegratedGICPFactor.evaluate
                       (gicp two_points two_points 1 0 0 Isometry3d_Identity [])
                       Isometry3d_Identity (blocks_of (of_Z 9))))) 3%nat 3%nat = 1)
    by qc_compute.
  split; [qc_compute|]. split; [vm_compute; reflexivity|].
  split; [exact Hv|].
  intros (Ht & Hs & Hts & bt & bs & E & HZ & _).
  rewrite E in Hv. cbn [H_target default from_option id] in Hv.
  rewrite (HZ 3%nat 3%nat) in Hv by lia. revert Hv. qc_differ.
Qed.

(** C6 (amended), on the same input. *)
Lemma gicp_identity_scenario_witness :
  let f := gicp two_points two_points 1 0 0 Isometry3d_Identity [] in
  let o := blocks_of (of_Z 9) in
  IntegratedGICPFactor.cost (IntegratedGICPFactor.evaluate f Isometry3d_Identity o) = 0
  /\ IntegratedGICPFactor.cost
       (IntegratedGICPFactor.evaluate f Isometry3d_Identity no_outputs) = 0
  /\ zero_bias (IntegratedGICPFactor.outputs
                  (IntegratedGICPFactor.evaluate f Isometry3d_Identity o)).
Proof.
  cbv zeta.
  apply (gicp_identity_scenario
           (gicp two_points two_points 1 0 0 Isometry3d_Identity [])
           (blocks_of (of_Z 9))).
  - reflexivity.
  - intros k Hk. destruct k as [|[|k]]; [| |cbn in Hk; lia]; intros i j _ _; reflexivity.
  - apply linear_search_exact.
  - vm_compute. reflexivity.
  - reflexivity.
  - reflexivity.
Defined.



(** C10, on an input: only [H_target] is passed. *)
Lemma gicp_partial_outputs_untouched_witness :
  let f := gicp one_point shifted_point (of_Z 100) 0 0 Isometry3d_Identity [] in
  let o := only_H_target (of_Z 9) in
  let r := IntegratedGICPFactor.evaluate f Isometry3d_Identity o in
  let acc := IntegratedGICPFactor.accumulate (IntegratedGICPFactor.factor r)
               Isometry3d_Identity o in
  IntegratedGICPFactor.outputs r = o
  /\ (Hs_target acc = [] /\ Hs_source acc = [] /\ Hs_target_source acc = []
      /\ bs_target acc = [] /\ bs_source acc = [])
  /\ IntegratedGICPFactor.cost r = sum_errors acc
  /\ IntegratedGICPFactor.cost r
     = IntegratedGICPFactor.cost
         (IntegratedGICPFactor.evaluate f Isometry3d_Identity no_outputs).
Proof.
  cbv zeta.
  apply (gicp_partial_outputs_untouched
           (gicp one_point shifted_point (of_Z 100) 0 0 Isometry3d_Identity [])
           Isometry3d_Identity (only_H_target (of_Z 9))).
  reflexivity.
Defined.

End Examples.

(** * Further properties *)

(** ** The sums held by the accumulators *)

Section ClosedForm.
Import Eigen Props Shapes.
Local Open Scope Qc_scope.

Lemma slot0_matrix_alter T l X D :
  slot0_matrix T l X ->
  slot0_matrix T (alter (fun Y => madd Y D) 0%nat l) (madd X D).
Proof.
  intros (X0 & -> & HX). exists (madd X0 D). split; [reflexivity|].
  intros a b Ha Hb. unfold madd. rewrite HX by assumption. reflexivity.
Qed.

Lemma slot0_vector_alter T l x d :
  slot0_vector T l x ->
  slot0_vector T (alter (fun y => vadd y d) 0%nat l) (vadd x d).
Proof.
  intros (x0 & -> & Hx). exists (vadd x0 d). split; [reflexivity|].
  intros a Ha. unfold vadd. rewrite Hx by assumption. reflexivity.
Qed.

Lemma slot0_matrix_meq T l X Y : slot0_matrix T l X -> meq X Y -> slot0_matrix T l Y.
Proof.
  intros (X0 & -> & HX) HXY. exists X0. split; [reflexivity|].
  intros a b Ha Hb. rewrite HX, HXY by assumption. reflexivity.
Qed.

Lemma slot0_vector_veq T l x y : slot0_vector T l x -> veq x y -> slot0_vector T l y.
Proof.
  intros (x0 & -> & Hx) Hxy. exists x0. split; [reflexivity|].
  intros a Ha. rewrite Hx, Hxy by assumption. reflexivity.
Qed.

(** One more source point. *)
Lemma holds_sums_step T m g acc :
  holds_sums T m g acc -> holds_sums T (S m) g (Contribution.apply (g m) acc).
Proof.
  intros (Hc & H1 & H2 & H3 & H4 & H5).
  unfold holds_sums, cost_sum, matrix_sum, vector_sum in *. cbn [sum_upto].
  destruct (g m) as [c|]; cbn [Contribution.apply Contribution.add Contribution.value
                                sum_errors Hs_target Hs_source Hs_target_source
                                bs_target bs_source].
  - rewrite Hc. split; [reflexivity|].
    repeat split;
      first [ eapply slot0_matrix_meq; [apply slot0_matrix_alter; eassumption|]
            | eapply slot0_vector_veq; [apply slot0_vector_alter; eassumption|] ];
      intros a; intros; reflexivity.
  - split; [rewrite Hc; dring|].
    repeat split;
      first [ eapply slot0_matrix_meq; [eassumption|]
            | eapply slot0_vector_veq; [eassumption|] ];
      intros a; intros; dring.
Qed.

Lemma holds_sums_fold T g acc n :
  holds_sums T 0 g acc ->
  holds_sums T n g (foldl (fun a i => Contribution.apply (g i) a) acc (seq 0 n)).
Proof.
  intros H0. induction n as [|n IH]; [exact H0|].
  rewrite seq_S, foldl_app. cbn [foldl plus]. apply holds_sums_step. exact IH.
Qed.

Lemma holds_sums_init T o g :
  all_requested o = true -> (1 <= T)%nat -> holds_sums T 0 g (init_accumulators T o).
Proof.
  intros Ho HT. unfold init_accumulators. rewrite Ho.
  destruct T as [|T]; [lia|]. unfold holds_sums, slot0_matrix, slot0_vector.
  replace (S T - 1)%nat with T by lia. cbn [replicate].
  repeat split; cbn [sum_errors Hs_target Hs_source Hs_target_source bs_target bs_source];
    eexists; (split; [reflexivity|]); intros a; intros; reflexivity.
Qed.

(** The merge returns what slot 0 holds. *)
Lemma merge_matrices_slot0 T l X :
  (1 <= T)%nat -> slot0_matrix T l X -> meq (merge_matrices T l) X.
Proof.
  intros HT (X0 & -> & HX). unfold merge_matrices.
  destruct T as [|T]; [lia|]. replace (S T - 1)%nat with T by lia. cbn [seq foldl].
  assert (Hgen : forall idx Y,
            meq Y X -> Forall (fun k => (1 <= k)%nat) idx ->
            meq (foldl (fun Z i => madd Z (default Zero ((X0 :: replicate T Zero) !! i)))
                       Y idx) X).
  { induction idx as [|k idx IH]; intros Y HY Hidx; cbn [foldl]; [exact HY|].
    apply Forall_cons in Hidx. destruct Hidx as [Hk Hidx].
    apply IH; [|exact Hidx]. intros a b Ha Hb. unfold madd. rewrite HY by assumption.
    destruct k as [|k]; [lia|]. cbn [lookup list_lookup].
    destruct (replicate T Zero !! k) as [Z|] eqn:EZ; cbn.
    - apply lookup_replicate in EZ. destruct EZ as [-> _]. unfold Zero. dring.
    - unfold Zero. dring. }
  apply Hgen.
  - intros a b Ha Hb. cbn. unfold madd, Zero. rewrite <- HX by assumption. dring.
  - apply Forall_forall. intros k Hk. apply list_elem_of_In, in_seq in Hk. lia.
Qed.

Lemma merge_vectors_slot0 T l x :
  (1 <= T)%nat -> slot0_vector T l x -> veq (merge_vectors T l) x.
Proof.
  intros HT (x0 & -> & Hx). unfold merge_vectors.
  destruct T as [|T]; [lia|]. replace (S T - 1)%nat with T by lia. cbn [seq foldl].
  assert (Hgen : forall idx y,
            veq y x -> Forall (fun k => (1 <= k)%nat) idx ->
            veq (foldl (fun z i => vadd z (default vZero ((x0 :: replicate T vZero) !! i)))
                       y idx) x).
  { induction idx as [|k idx IH]; intros y Hy Hidx; cbn [foldl]; [exact Hy|].
    apply Forall_cons in Hidx. destruct Hidx as [Hk Hidx].
    apply IH; [|exact Hidx]. intros a Ha. unfold vadd. rewrite Hy by assumption.
    destruct k as [|k]; [lia|]. cbn [lookup list_lookup].
    destruct (replicate T vZero !! k) as [z|] eqn:Ez; cbn.
    - apply lookup_replicate in Ez. destruct Ez as [-> _]. unfold vZero. dring.
    - unfold vZero. dring. }
  apply Hgen.
  - intros a Ha. cbn. unfold vadd, vZero. rewrite <- Hx by assumption. dring.
  - apply Forall_forall. intros k Hk. apply list_elem_of_In, in_seq in Hk. lia.
Qed.

End ClosedForm.

(** ** What [evaluate] returns, in closed form *)

Section EvaluateSums.
Import Eigen Props Shapes.
Local Open Scope Qc_scope.
Context {TargetFrame SourceFrame IntensityGradients : Type}.
Context `{frame.traits TargetFrame} `{frame.traits SourceFrame}
        `{frame.gradient_traits IntensityGradients} `{Libm}.

Local Abbreviation gicp := (IntegratedGICPFactor.t TargetFrame SourceFrame).
Local Abbreviation color :=
  (IntegratedColorConsistencyFactor.t TargetFrame SourceFrame IntensityGradients).

(** [update_correspondences] and [evaluate] write the cache and nothing
    else of the factor. *)
Lemma gicp_ensure_keeps (f : gicp) delta :
  let f1 := fst (IntegratedGICPFactor.ensure_correspondences f delta) in
  IntegratedGICPFactor.source f1 = IntegratedGICPFactor.source f
  /\ IntegratedGICPFactor.target f1 = IntegratedGICPFactor.target f
  /\ IntegratedGICPFactor.num_threads f1 = IntegratedGICPFactor.num_threads f.
Proof.
  unfold IntegratedGICPFactor.ensure_correspondences.
  destruct (negb _); [|auto].
  rewrite update_correspondences_eq. cbn. auto.
Qed.

Lemma color_ensure_keeps (f : color) delta :
  let f1 := fst (IntegratedColorConsistencyFactor.ensure_correspondences f delta) in
  IntegratedColorConsistencyFactor.source f1 = IntegratedColorConsistencyFactor.source f
  /\ IntegratedColorConsistencyFactor.target f1 = IntegratedColorConsistencyFactor.target f
  /\ IntegratedColorConsistencyFactor.num_threads f1
     = IntegratedColorConsistencyFactor.num_threads f.
Proof.
  unfold IntegratedColorConsistencyFactor.ensure_correspondences.
  destruct (negb _); [|auto].
  rewrite color_update_correspondences_eq. cbn. auto.
Qed.

(** With partial sums to add to, an iteration is its contribution. *)
Lemma gicp_point_is_contribution (f : gicp) delta acc i :
  Hs_target acc <> [] ->
  IntegratedGICPFactor.evaluate_point f delta acc i
  = Contribution.apply (Contribution.gicp f delta i) acc.
Proof.
  intros Hne. unfold IntegratedGICPFactor.evaluate_point, Contribution.gicp.
  destruct (corr_at _ i <? 0)%Z; [reflexivity|].
  rewrite bool_decide_eq_false_2 by exact Hne. reflexivity.
Qed.

Lemma color_point_is_contribution (f : color) delta o acc i :
  is_Some (H_target o) ->
  IntegratedColorConsistencyFactor.evaluate_point f delta o acc i
  = Contribution.apply (Contribution.color f delta i) acc.
Proof.
  intros Ho. unfold IntegratedColorConsistencyFactor.evaluate_point, Contribution.color.
  destruct (corr_at _ i <? 0)%Z; [reflexivity|].
  rewrite bool_decide_eq_true_2 by exact Ho. reflexivity.
Qed.

Lemma apply_keeps_slots oc acc :
  Hs_target acc <> [] -> Hs_target (Contribution.apply oc acc) <> [].
Proof.
  intros Hne. destruct oc as [c|]; [|exact Hne]. cbn.
  destruct (Hs_target acc); [congruence|discriminate].
Qed.

Lemma gicp_fold_is_contributions (f : gicp) delta l : forall acc,
  Hs_target acc <> [] ->
  foldl (IntegratedGICPFactor.evaluate_point f delta) acc l
  = foldl (fun a i => Contribution.apply (Contribution.gicp f delta i) a) acc l.
Proof.
  induction l as [|i l IH]; intros acc Hne; cbn [foldl]; [reflexivity|].
  rewrite gicp_point_is_contribution by exact Hne.
  apply IH. apply apply_keeps_slots. exact Hne.
Qed.

Lemma color_fold_is_contributions (f : color) delta o l : forall acc,
  is_Some (H_target o) ->
  foldl (IntegratedColorConsistencyFactor.evaluate_point f delta o) acc l
  = foldl (fun a i => Contribution.apply (Contribution.color f delta i) a) acc l.
Proof.
  induction l as [|i l IH]; intros acc Ho; cbn [foldl]; [reflexivity|].
  rewrite color_point_is_contribution by exact Ho. apply IH. exact Ho.
Qed.

Lemma init_accumulators_slots T o :
  all_requested o = true -> (1 <= T)%nat -> Hs_target (init_accumulators T o) <> [].
Proof.
  intros Ho HT. unfold init_accumulators. rewrite Ho. cbn.
  destruct T; [lia|discriminate].
Qed.

Lemma all_requested_H_target o : all_requested o = true -> is_Some (H_target o).
Proof.
  unfold all_requested. intros Ho. repeat (apply andb_true_iff in Ho; destruct Ho as [Ho ?]).
  apply bool_decide_eq_true in Ho. exact Ho.
Qed.

(** The written blocks are the sums the accumulators hold. *)
Lemma write_outputs_sums T n g acc o :
  all_requested o = true -> (1 <= T)%nat -> holds_sums T n g acc ->
  all_blocks (write_outputs T acc o) (fun Ht Hs Hts bt bs =>
    meq Ht (matrix_sum n g Contribution.Ht)
    /\ meq Hs (matrix_sum n g Contribution.Hs)
    /\ meq Hts (matrix_sum n g Contribution.Hts)
    /\ veq bt (vector_sum n g Contribution.bt)
    /\ veq bs (vector_sum n g Contribution.bs)).
Proof.
  intros Ho HT (_ & S1 & S2 & S3 & S4 & S5). unfold write_outputs. rewrite Ho.
  do 5 eexists. split; [reflexivity|].
  repeat split; auto using merge_matrices_slot0, merge_vectors_slot0.
Qed.

Lemma gicp_evaluate_holds_sums (f : gicp) (delta : Isometry3d) (o : Outputs) :
  all_requested o = true ->
  (1 <= IntegratedGICPFactor.num_threads f)%nat ->
  let f1 := fst (IntegratedGICPFactor.ensure_correspondences f delta) in
  holds_sums (IntegratedGICPFactor.num_threads f)
             (frame.size (IntegratedGICPFactor.source f))
             (Contribution.gicp f1 delta)
             (IntegratedGICPFactor.accumulate f1 delta o).
Proof.
  intros Ho HT f1.
  pose proof (gicp_ensure_keeps f delta) as (Hsrc & _ & Hn). fold f1 in Hsrc, Hn.
  unfold IntegratedGICPFactor.accumulate. rewrite Hsrc, Hn.
  rewrite gicp_fold_is_contributions by (apply init_accumulators_slots; assumption).
  apply holds_sums_fold, holds_sums_init; assumption.
Qed.

Lemma color_evaluate_holds_sums (f : color) (delta : Isometry3d) (o : Outputs) :
  all_requested o = true ->
  (1 <= IntegratedColorConsistencyFactor.num_threads f)%nat ->
  let f1 := fst (IntegratedColorConsistencyFactor.ensure_correspondences f delta) in
  holds_sums (IntegratedColorConsistencyFactor.num_threads f)
             (frame.size (IntegratedColorConsistencyFactor.source f))
             (Contribution.color f1 delta)
             (IntegratedColorConsistencyFactor.accumulate f1 delta o).
Proof.
  intros Ho HT f1.
  pose proof (color_ensure_keeps f delta) as (Hsrc & _ & Hn). fold f1 in Hsrc, Hn.
  unfold IntegratedColorConsistencyFactor.accumulate. rewrite Hsrc, Hn.
  rewrite color_fold_is_contributions by (apply all_requested_H_target; assumption).
  apply holds_sums_fold, holds_sums_init; assumption.
Qed.

(** The blocks [evaluate] writes, from the sums its accumulators hold. *)
Lemma gicp_outputs_from_sums (f : gicp) (delta : Isometry3d) (o : Outputs)
    (P : Matrix 6 6 -> Matrix 6 6 -> Matrix 6 6 -> Vector 6 -> Vector 6 -> Prop) :
  all_requested o = true ->
  (1 <= IntegratedGICPFactor.num_threads f)%nat ->
  (forall Ht Hs Hts bt bs,
     let g := Contribution.gicp
                (fst (IntegratedGICPFactor.ensure_correspondences f delta)) delta in
     let n := frame.size (IntegratedGICPFactor.source f) in
     meq Ht (matrix_sum n g Contribution.Ht) ->
     meq Hs (matrix_sum n g Contribution.Hs) ->
     meq Hts (matrix_sum n g Contribution.Hts) ->
     veq bt (vector_sum n g Contribution.bt) ->
     veq bs (vector_sum n g Contribution.bs) ->
     P Ht Hs Hts bt bs) ->
  all_blocks (IntegratedGICPFactor.outputs (IntegratedGICPFactor.evaluate f delta o)) P.
Proof.
  intros Ho HT HP.
  pose proof (gicp_evaluate_holds_sums f delta o Ho HT) as Hsum.
  pose proof (gicp_ensure_keeps f delta) as (_ & _ & Hn).
  unfold IntegratedGICPFactor.evaluate.
  destruct (IntegratedGICPFactor.ensure_correspondences f delta) as [f1 qs].
  cbn [fst] in *. cbn [IntegratedGICPFactor.outputs]. rewrite Hn.
  destruct (write_outputs_sums _ _ _ _ o Ho HT Hsum)
    as (Ht & Hs & Hts & bt & bs & E & S1 & S2 & S3 & S4 & S5).
  exists Ht, Hs, Hts, bt, bs. split; [exact E|]. apply HP; assumption.
Qed.

Lemma color_outputs_from_sums (f : color) (delta : Isometry3d) (o : Outputs)
    (P : Matrix 6 6 -> Matrix 6 6 -> Matrix 6 6 -> Vector 6 -> Vector 6 -> Prop) :
  all_requested o = true ->
  (1 <= IntegratedColorConsistencyFactor.num_threads f)%nat ->
  (forall Ht Hs Hts bt bs,
     let g := Contribution.color
                (fst (IntegratedColorConsistencyFactor.ensure_correspondences f delta))
                delta in
     let n := frame.size (IntegratedColorConsistencyFactor.source f) in
     meq Ht (matrix_sum n g Contribution.Ht) ->
     meq Hs (matrix_sum n g Contribution.Hs) ->
     meq Hts (matrix_sum n g Contribution.Hts) ->
     veq bt (vector_sum n g Contribution.bt) ->
     veq bs (vector_sum n g Contribution.bs) ->
     P Ht Hs Hts bt bs) ->
  all_blocks (IntegratedColorConsistencyFactor.outputs
                (IntegratedColorConsistencyFactor.evaluate f delta o)) P.
Proof.
  intros Ho HT HP.
  pose proof (color_evaluate_holds_sums f delta o Ho HT) as Hsum.
  pose proof (color_ensure_keeps f delta) as (_ & _ & Hn).
  unfold IntegratedColorConsistencyFactor.evaluate.
  destruct (IntegratedColorConsistencyFactor.ensure_correspondences f delta) as [f1 qs].
  cbn [fst] in *. cbn [IntegratedColorConsistencyFactor.outputs]. rewrite Hn.
  destruct (write_outputs_sums _ _ _ _ o Ho HT Hsum)
    as (Ht & Hs & Hts & bt & bs & E & S1 & S2 & S3 & S4 & S5).
  exists Ht, Hs, Hts, bt, bs. split; [exact E|]. apply HP; assumption.
Qed.

Lemma evaluate_factor_is_ensured_gicp (f : gicp) delta o :
  IntegratedGICPFactor.factor (IntegratedGICPFactor.evaluate f delta o)
  = fst (IntegratedGICPFactor.ensure_correspondences f delta).
Proof.
  unfold IntegratedGICPFactor.evaluate.
  destruct (IntegratedGICPFactor.ensure_correspondences f delta). reflexivity.
Qed.

Lemma evaluate_factor_is_ensured_color (f : color) delta o :
  IntegratedColorConsistencyFactor.factor
    (IntegratedColorConsistencyFactor.evaluate f delta o)
  = fst (IntegratedColorConsistencyFactor.ensure_correspondences f delta).
Proof.
  unfold IntegratedColorConsistencyFactor.evaluate.
  destruct (IntegratedColorConsistencyFactor.ensure_correspondences f delta). reflexivity.
Qed.

(** X1. With the five blocks requested and at least one thread, the blocks
    the GICP [evaluate] writes are, entry by entry, the sums over the
    source points of the per-point terms J^T W J and J^T W e (nothing
    for an unmatched point), whatever the blocks held before. *)
Theorem gicp_evaluate_sums (f : gicp) (delta : Isometry3d) (o : Outputs) :
  all_requested o = true ->
  (1 <= IntegratedGICPFactor.num_threads f)%nat ->
  let r := IntegratedGICPFactor.evaluate f delta o in
  let g := Contribution.gicp (IntegratedGICPFactor.factor r) delta in
  let n := frame.size (IntegratedGICPFactor.source f) in
  all_blocks (IntegratedGICPFactor.outputs r) (fun Ht Hs Hts bt bs =>
    meq Ht (matrix_sum n g Contribution.Ht)
    /\ meq Hs (matrix_sum n g Contribution.Hs)
    /\ meq Hts (matrix_sum n g Contribution.Hts)
    /\ veq bt (vector_sum n g Contribution.bt)
    /\ veq bs (vector_sum n g Contribution.bs)).
Proof.
  intros Ho HT r g n. subst r g n. rewrite evaluate_factor_is_ensured_gicp.
  apply gicp_outputs_from_sums; [assumption..|]. cbv zeta. auto.
Qed.

(** X2. The same closed form for the colour consistency [evaluate]:
    the blocks are the sums over the source points of J^T w J and
    J^T w e, with J the 1x6 derivative of the photometric residual. *)
Theorem color_evaluate_sums (f : color) (delta : Isometry3d) (o : Outputs) :
  all_requested o = true ->
  (1 <= IntegratedColorConsistencyFactor.num_threads f)%nat ->
  let r := IntegratedColorConsistencyFactor.evaluate f delta o in
  let g := Contribution.color (IntegratedColorConsistencyFactor.factor r) delta in
  let n := frame.size (IntegratedColorConsistencyFactor.source f) in
  all_blocks (IntegratedColorConsistencyFactor.outputs r) (fun Ht Hs Hts bt bs =>
    meq Ht (matrix_sum n g Contribution.Ht)
    /\ meq Hs (matrix_sum n g Contribution.Hs)
    /\ meq Hts (matrix_sum n g Contribution.Hts)
    /\ veq bt (vector_sum n g Contribution.bt)
    /\ veq bs (vector_sum n g Contribution.bs)).
Proof.
  intros Ho HT r g n. subst r g n. rewrite evaluate_factor_is_ensured_color.
  apply color_outputs_from_sums; [assumption..|]. cbv zeta. auto.
Qed.

End EvaluateSums.

(** ** The cache after [update_correspondences] and [evaluate] *)

Section CacheShape.
Import Eigen Props Shapes.
Local Open Scope Qc_scope.
Context {TargetFrame SourceFrame IntensityGradients : Type}.
Context `{frame.traits TargetFrame} `{frame.traits SourceFrame}
        `{frame.gradient_traits IntensityGradients} `{Libm}.

Local Abbreviation gicp := (IntegratedGICPFactor.t TargetFrame SourceFrame).
Local Abbreviation color :=
  (IntegratedColorConsistencyFactor.t TargetFrame SourceFrame IntensityGradients).

(** X5. After every [update_correspondences] the arrays have the size of
    the source, whatever their size before, and the searches sent are
    one per source point in index order on a refresh and none otherwise;
    the colour consistency factor sends the intensity in the fourth
    coordinate of the query. *)
Theorem update_correspondences_shape (fg : gicp) (fc : color) (delta : Isometry3d) :
  let ug := IntegratedGICPFactor.update_correspondences fg delta in
  let uc := IntegratedColorConsistencyFactor.update_correspondences fc delta in
  let ng := frame.size (IntegratedGICPFactor.source fg) in
  let nc := frame.size (IntegratedColorConsistencyFactor.source fc) in
  (length (IntegratedGICPFactor.correspondences (fst ug)) = ng
   /\ length (IntegratedGICPFactor.mahalanobis (fst ug)) = ng
   /\ snd ug
      = (if IntegratedGICPFactor.do_update fg delta
         then map (fun i => transform delta
                              (frame.point (IntegratedGICPFactor.source fg) i))
                  (seq 0 ng)
         else []))
  /\ (length (IntegratedColorConsistencyFactor.correspondences (fst uc)) = nc
      /\ snd uc
         = (if IntegratedColorConsistencyFactor.do_update fc delta
            then map (fun i =>
                        vset (transform delta
                                (frame.point (IntegratedColorConsistencyFactor.source fc) i))
                             3
                             (frame.intensity (IntegratedColorConsistencyFactor.source fc) i))
                     (seq 0 nc)
            else [])).
Proof.
  intros ug uc ng nc. subst ug uc ng nc.
  rewrite update_correspondences_eq, color_update_correspondences_eq.
  cbn [fst snd IntegratedGICPFactor.correspondences IntegratedGICPFactor.mahalanobis
       IntegratedGICPFactor.set_cache IntegratedColorConsistencyFactor.correspondences
       IntegratedColorConsistencyFactor.set_cache].
  split; [split; [|split]|split].
  - destruct (IntegratedGICPFactor.do_update fg delta) eqn:E;
      [apply seq_map_length | apply do_update_false_length in E; exact E].
  - apply seq_map_length.
  - reflexivity.
  - destruct (IntegratedColorConsistencyFactor.do_update fc delta) eqn:E;
      [apply seq_map_length | apply color_do_update_false_length in E; exact E].
  - reflexivity.
Qed.

Lemma not_positive (a : double) : a <= 0 -> ltb 0 a = false.
Proof. intros Ha. apply ltb_ge. exact Ha. Qed.

(** X6. With both tolerances zero or negative (the constructors'
    defaults) every [update_correspondences] refreshes: one search per
    source point, and the GICP reference pose becomes [delta]. *)
Theorem zero_tolerances_always_refresh (fg : gicp) (fc : color) (delta : Isometry3d) :
  IntegratedGICPFactor.correspondence_update_tolerance_rot fg <= 0 ->
  IntegratedGICPFactor.correspondence_update_tolerance_trans fg <= 0 ->
  IntegratedColorConsistencyFactor.correspondence_update_tolerance_rot fc <= 0 ->
  IntegratedColorConsistencyFactor.correspondence_update_tolerance_trans fc <= 0 ->
  (IntegratedGICPFactor.do_update fg delta = true
   /\ length (snd (IntegratedGICPFactor.update_correspondences fg delta))
      = frame.size (IntegratedGICPFactor.source fg)
   /\ IntegratedGICPFactor.last_correspondence_point
        (fst (IntegratedGICPFactor.update_correspondences fg delta)) = delta)
  /\ (IntegratedColorConsistencyFactor.do_update fc delta = true
      /\ length (snd (IntegratedColorConsistencyFactor.update_correspondences fc delta))
         = frame.size (IntegratedColorConsistencyFactor.source fc)).
Proof.
  intros Gr Gt Cr Ct.
  assert (Eg : IntegratedGICPFactor.do_update fg delta = true).
  { unfold IntegratedGICPFactor.do_update.
    rewrite (not_positive _ Gr), (not_positive _ Gt), andb_false_r. reflexivity. }
  assert (Ec : IntegratedColorConsistencyFactor.do_update fc delta = true).
  { unfold IntegratedColorConsistencyFactor.do_update.
    rewrite (not_positive _ Cr), (not_positive _ Ct), andb_false_r. reflexivity. }
  rewrite update_correspondences_eq, color_update_correspondences_eq, Eg, Ec.
  cbn. rewrite !seq_map_length. auto.
Qed.

Lemma gicp_update_length (f : gicp) delta :
  let f1 := fst (IntegratedGICPFactor.update_correspondences f delta) in
  length (IntegratedGICPFactor.correspondences f1)
  = frame.size (IntegratedGICPFactor.source f1).
Proof.
  cbv zeta. rewrite update_correspondences_eq. cbn.
  destruct (IntegratedGICPFactor.do_update f delta) eqn:E;
    [apply seq_map_length | apply do_update_false_length in E; exact E].
Qed.

Lemma color_update_length (f : color) delta :
  let f1 := fst (IntegratedColorConsistencyFactor.update_correspondences f delta) in
  length (IntegratedColorConsistencyFactor.correspondences f1)
  = frame.size (IntegratedColorConsistencyFactor.source f1).
Proof.
  cbv zeta. rewrite color_update_correspondences_eq. cbn.
  destruct (IntegratedColorConsistencyFactor.do_update f delta) eqn:E;
    [apply seq_map_length | apply color_do_update_false_length in E; exact E].
Qed.

(** X7. [evaluate] after [update_correspondences] sends no search and
    leaves the cache as it is, for any pose: only a cache of the wrong
    size makes [evaluate] search. *)
Theorem evaluate_reuses_cache (fg : gicp) (fc : color) (delta delta' : Isometry3d)
    (o : Outputs) :
  let fg1 := fst (IntegratedGICPFactor.update_correspondences fg delta) in
  let fc1 := fst (IntegratedColorConsistencyFactor.update_correspondences fc delta) in
  (IntegratedGICPFactor.queries (IntegratedGICPFactor.evaluate fg1 delta' o) = []
   /\ IntegratedGICPFactor.factor (IntegratedGICPFactor.evaluate fg1 delta' o) = fg1)
  /\ (IntegratedColorConsistencyFactor.queries
        (IntegratedColorConsistencyFactor.evaluate fc1 delta' o) = []
      /\ IntegratedColorConsistencyFactor.factor
           (IntegratedColorConsistencyFactor.evaluate fc1 delta' o) = fc1).
Proof.
  intros fg1 fc1.
  pose proof (gicp_update_length fg delta) as Lg.
  pose proof (color_update_length fc delta) as Lc.
  fold fg1 in Lg. fold fc1 in Lc. cbv zeta in Lg, Lc.
  unfold IntegratedGICPFactor.evaluate, IntegratedGICPFactor.ensure_correspondences,
    IntegratedColorConsistencyFactor.evaluate,
    IntegratedColorConsistencyFactor.ensure_correspondences.
  rewrite Lg, Lc, !Nat.eqb_refl. cbn. auto.
Qed.

Lemma refreshed_in_range n (tree : NearestNeighborSearch) q max_sq :
  bounded_search n tree -> (Z.of_nat n < 2 ^ 63)%Z ->
  let c := size_t_to_long
             (if (0 <? num_found (knn_search tree q 1 max_sq))%nat
                 && ltb (k_sq_dist (knn_search tree q 1 max_sq)) max_sq
              then k_index (knn_search tree q 1 max_sq) else size_t_max) in
  c = (-1)%Z \/ (0 <= c < Z.of_nat n)%Z.
Proof.
  intros Hb Hn c. subst c.
  destruct ((0 <? num_found (knn_search tree q 1 max_sq))%nat
            && ltb (k_sq_dist (knn_search tree q 1 max_sq)) max_sq) eqn:E.
  - right. apply andb_true_iff in E. destruct E as [Ef _]. apply Nat.ltb_lt in Ef.
    specialize (Hb q max_sq Ef). rewrite size_t_to_long_small by lia. exact Hb.
  - left. apply size_t_to_long_max.
Qed.

(** X8. When the search reports indices below the size of the target
    (and that size is below 2^63, so that the conversion of [size_t] to
    [long] does not wrap), every cached correspondence stays [-1] or an
    index of a target point, after [update_correspondences] and after
    [evaluate]. *)
Theorem correspondences_stay_in_range (fg : gicp) (fc : color) (delta : Isometry3d)
    (o : Outputs) :
  let ng := frame.size (IntegratedGICPFactor.target fg) in
  let nc := frame.size (IntegratedColorConsistencyFactor.target fc) in
  bounded_search ng (IntegratedGICPFactor.target_tree fg) ->
  (Z.of_nat ng < 2 ^ 63)%Z ->
  in_range ng (IntegratedGICPFactor.correspondences fg) ->
  bounded_search nc (IntegratedColorConsistencyFactor.target_tree fc) ->
  (Z.of_nat nc < 2 ^ 63)%Z ->
  in_range nc (IntegratedColorConsistencyFactor.correspondences fc) ->
  (in_range ng (IntegratedGICPFactor.correspondences
                  (fst (IntegratedGICPFactor.update_correspondences fg delta)))
   /\ in_range ng (IntegratedGICPFactor.correspondences
                     (IntegratedGICPFactor.factor
                        (IntegratedGICPFactor.evaluate fg delta o))))
  /\ (in_range nc (IntegratedColorConsistencyFactor.correspondences
                     (fst (IntegratedColorConsistencyFactor.update_correspondences fc delta)))
      /\ in_range nc (IntegratedColorConsistencyFactor.correspondences
                        (IntegratedColorConsistencyFactor.factor
                           (IntegratedColorConsistencyFactor.evaluate fc delta o)))).
Proof.
  intros ng nc Gb Gn Gi Cb Cn Ci.
  assert (Gu : in_range ng (IntegratedGICPFactor.correspondences
                  (fst (IntegratedGICPFactor.update_correspondences fg delta)))).
  { rewrite update_correspondences_eq. cbn.
    destruct (IntegratedGICPFactor.do_update fg delta); [|exact Gi].
    apply Forall_forall. intros c Hc. apply list_elem_of_In, in_map_iff in Hc.
    destruct Hc as (i & <- & _).
    apply (refreshed_in_range ng _ _ _ Gb Gn). }
  assert (Cu : in_range nc (IntegratedColorConsistencyFactor.correspondences
                  (fst (IntegratedColorConsistencyFactor.update_correspondences fc delta)))).
  { rewrite color_update_correspondences_eq. cbn.
    destruct (IntegratedColorConsistencyFactor.do_update fc delta); [|exact Ci].
    apply Forall_forall. intros c Hc. apply list_elem_of_In, in_map_iff in Hc.
    destruct Hc as (i & <- & _).
    apply (refreshed_in_range nc _ _ _ Cb Cn). }
  split; split; try assumption.
  - unfold IntegratedGICPFactor.evaluate, IntegratedGICPFactor.ensure_correspondences.
    destruct (negb _).
    + destruct (IntegratedGICPFactor.update_correspondences fg delta). exact Gu.
    + exact Gi.
  - unfold IntegratedColorConsistencyFactor.evaluate,
      IntegratedColorConsistencyFactor.ensure_correspondences.
    destruct (negb _).
    + destruct (IntegratedColorConsistencyFactor.update_correspondences fc delta). exact Cu.
    + exact Ci.
Qed.

End CacheShape.

(** ** The cost as a sum over the source points *)

Section CostSum.
Import Eigen Props Shapes.
Local Open Scope Qc_scope.
Context {TargetFrame SourceFrame IntensityGradients : Type}.
Context `{frame.traits TargetFrame} `{frame.traits SourceFrame}
        `{frame.gradient_traits IntensityGradients} `{Libm}.

Local Abbreviation gicp := (IntegratedGICPFactor.t TargetFrame SourceFrame).
Local Abbreviation color :=
  (IntegratedColorConsistencyFactor.t TargetFrame SourceFrame IntensityGradients).










(** X10. With [num_threads = 0] and the five blocks requested, the
    partial sums are empty after the resize: the GICP loop leaves at
    [Hs_target.empty()] before any index into them, the blocks are
    written as zero, and the cost is that of a call without blocks. *)
Theorem gicp_no_thread_zero_blocks (f : gicp) (delta : Isometry3d) (o : Outputs) :
  IntegratedGICPFactor.num_threads f = 0%nat ->
  all_requested o = true ->
  zero_blocks (IntegratedGICPFactor.outputs (IntegratedGICPFactor.evaluate f delta o))
  /\ IntegratedGICPFactor.cost (IntegratedGICPFactor.evaluate f delta o)
     = IntegratedGICPFactor.cost (IntegratedGICPFactor.evaluate f delta no_outputs).
Proof.
  intros HT Ho. split; [|apply gicp_cost_any_outputs].
  pose proof (gicp_ensure_keeps f delta) as (_ & _ & Hn).
  unfold IntegratedGICPFactor.evaluate.
  destruct (IntegratedGICPFactor.ensure_correspondences f delta) as [f1 qs].
  cbn [fst] in Hn. cbn. rewrite Hn, HT. unfold write_outputs. rewrite Ho.
  do 5 eexists. split; [reflexivity|].
  repeat split; intros a; intros; reflexivity.
Qed.

(** X11. On an empty source both factors return cost 0, send no search,
    keep an empty array and write zero blocks. *)
Theorem empty_source_costs_nothing (fg : gicp) (fc : color) (delta : Isometry3d)
    (o : Outputs) :
  frame.size (IntegratedGICPFactor.source fg) = 0%nat ->
  frame.size (IntegratedColorConsistencyFactor.source fc) = 0%nat ->
  all_requested o = true ->
  let rg := IntegratedGICPFactor.evaluate fg delta o in
  let rc := IntegratedColorConsistencyFactor.evaluate fc delta o in
  (IntegratedGICPFactor.cost rg = 0
   /\ IntegratedGICPFactor.queries rg = []
   /\ IntegratedGICPFactor.correspondences (IntegratedGICPFactor.factor rg) = []
   /\ zero_blocks (IntegratedGICPFactor.outputs rg))
  /\ (IntegratedColorConsistencyFactor.cost rc = 0
      /\ IntegratedColorConsistencyFactor.queries rc = []
      /\ IntegratedColorConsistencyFactor.correspondences
           (IntegratedColorConsistencyFactor.factor rc) = []
      /\ zero_blocks (IntegratedColorConsistencyFactor.outputs rc)).
Proof.
  intros Eg Ec Ho rg rc. subst rg rc. split.
  - unfold IntegratedGICPFactor.evaluate, IntegratedGICPFactor.ensure_correspondences.
    destruct (negb _) eqn:En.
    + rewrite update_correspondences_eq.
      unfold IntegratedGICPFactor.accumulate. cbn. rewrite Eg. cbn.
      repeat split; try (destruct (IntegratedGICPFactor.do_update fg delta); reflexivity).
      * apply init_accumulators_sum.
      * apply negb_true_iff, Nat.eqb_neq in En. rewrite Eg in En.
        destruct (IntegratedGICPFactor.do_update fg delta) eqn:Eu; [reflexivity|].
        apply do_update_false_length in Eu. rewrite Eg in Eu. contradiction.
      * apply write_outputs_init_zero. exact Ho.
    + apply negb_false_iff, Nat.eqb_eq in En. rewrite Eg in En.
      unfold IntegratedGICPFactor.accumulate. cbn. rewrite Eg. cbn.
      repeat split.
      * apply init_accumulators_sum.
      * apply length_zero_iff_nil. exact En.
      * apply write_outputs_init_zero. exact Ho.
  - unfold IntegratedColorConsistencyFactor.evaluate,
      IntegratedColorConsistencyFactor.ensure_correspondences.
    destruct (negb _) eqn:En.
    + rewrite color_update_correspondences_eq.
      unfold IntegratedColorConsistencyFactor.accumulate. cbn. rewrite Ec. cbn.
      repeat split;
        try (destruct (IntegratedColorConsistencyFactor.do_update fc delta); reflexivity).
      * apply init_accumulators_sum.
      * apply negb_true_iff, Nat.eqb_neq in En. rewrite Ec in En.
        destruct (IntegratedColorConsistencyFactor.do_update fc delta) eqn:Eu;
          [reflexivity|].
        apply color_do_update_false_length in Eu. rewrite Ec in Eu. contradiction.
      * apply write_outputs_init_zero. exact Ho.
    + apply negb_false_iff, Nat.eqb_eq in En. rewrite Ec in En.
      unfold IntegratedColorConsistencyFactor.accumulate. cbn. rewrite Ec. cbn.
      repeat split.
      * apply init_accumulators_sum.
      * apply length_zero_iff_nil. exact En.
      * apply write_outputs_init_zero. exact Ho.
Qed.

End CostSum.

(** ** The weight and the composed covariance *)

Section WeightBlock.
Import Eigen Props Shapes IntegratedGICPFactor.
Local Open Scope Qc_scope.

(** The matrix that [update_correspondences] inverts. *)
Local Abbreviation composed delta Ct Cs :=
  (set_entry (madd Ct (mmul (k:=4) (mmul (k:=4) (matrix delta) Cs)
                            (transpose (matrix delta)))) 3 3 1).

(** Its space block is the target block plus the rotated source block:
    the translation of [delta] does not enter. *)
Lemma composed_space_block (delta : Isometry3d) (Ct Cs : Matrix 4 4) r s :
  zero_homogeneous Cs -> (r < 3)%nat -> (s < 3)%nat ->
  composed delta Ct Cs r s
  = madd (block33 Ct 0 0)
         (mmul (k:=3) (mmul (k:=3) (linear delta) (block33 Cs 0 0))
               (transpose (linear delta))) r s.
Proof.
  intros Hs Hr Hs'.
  apply zero_homogeneous_entries in Hs.
  destruct Hs as (s0 & s1 & s2 & s3 & s4 & s5 & s6).
  destruct r as [|[|[|r]]]; [| | |lia]; destruct s as [|[|[|s]]]; try lia;
    cbv [set_entry madd mmul transpose matrix block33 sum_upto
         Nat.eqb Nat.ltb Nat.leb Nat.add andb];
    rewrite ?s0, ?s1, ?s2, ?s3, ?s4, ?s5, ?s6; dring.
Qed.

(** X12. For covariances with a zero fourth row and column and an
    invertible composed matrix, the 3x3 space block of the stored
    weight is the inverse of C_B + R C_A R^T, on both sides. *)
Theorem weight_inverts_space_covariance (delta : Isometry3d) (Ct Cs : Matrix 4 4) :
  zero_homogeneous Ct ->
  zero_homogeneous Cs ->
  det4 (composed delta Ct Cs) <> 0 ->
  let W := block33 (mahalanobis_weight delta Ct Cs) 0 0 in
  let S := madd (block33 Ct 0 0)
                (mmul (k:=3) (mmul (k:=3) (linear delta) (block33 Cs 0 0))
                      (transpose (linear delta))) in
  meq (mmul (k:=3) S W) Identity /\ meq (mmul (k:=3) W S) Identity.
Proof.
  intros Ht Hs Hdet W S.
  destruct (inverse_correct _ Hdet) as [Hr Hl].
  assert (Hz : forall r, (r < 3)%nat ->
            composed delta Ct Cs r 3%nat = 0 /\ composed delta Ct Cs 3%nat r = 0)
    by (intros r Hr3; apply composed_covariance_homogeneous; assumption).
  assert (HS : forall r s, (r < 3)%nat -> (s < 3)%nat -> S r s = composed delta Ct Cs r s)
    by (intros r s Hr3 Hs3; symmetry; apply composed_space_block; assumption).
  assert (HW : forall r s, (r < 3)%nat -> (s < 3)%nat ->
            W r s = inverse (composed delta Ct Cs) r s).
  { intros r s Hr3 Hs3. subst W. unfold block33, mahalanobis_weight. cbv zeta.
    unfold set_entry at 1. cbn [Nat.add].
    replace (r =? 3)%nat with false by (symmetry; apply Nat.eqb_neq; lia).
    reflexivity. }
  clearbody W S.
  set (A := composed delta Ct Cs) in *. clearbody A.
  split; intros r s Hr3 Hs3.
  - specialize (Hr r s ltac:(lia) ltac:(lia)).
    unfold mmul in *. cbn [sum_upto] in *.
    rewrite !HS, !HW by lia.
    rewrite (proj1 (Hz r Hr3)) in Hr.
    replace (Identity (n:=3) r s) with (Identity (n:=4) r s) by reflexivity.
    rewrite <- Hr. dring.
  - specialize (Hl r s ltac:(lia) ltac:(lia)).
    unfold mmul in *. cbn [sum_upto] in *.
    rewrite !HS, !HW by lia.
    rewrite (proj2 (Hz s Hs3)) in Hl.
    replace (Identity (n:=3) r s) with (Identity (n:=4) r s) by reflexivity.
    rewrite <- Hl. dring.
Qed.

(** X13. For covariances with a zero fourth row and column the weight
    depends on [delta] through its rotation only. *)
Theorem weight_ignores_translation (delta delta' : Isometry3d) (Ct Cs : Matrix 4 4) :
  zero_homogeneous Ct ->
  zero_homogeneous Cs ->
  meq (linear delta) (linear delta') ->
  meq (mahalanobis_weight delta Ct Cs) (mahalanobis_weight delta' Ct Cs).
Proof.
  intros Ht Hs HR. unfold mahalanobis_weight. cbv zeta.
  intros i j Hi Hj. unfold set_entry at 1 3.
  destruct ((i =? 3)%nat && (j =? 3)%nat); [reflexivity|].
  apply inverse_ext; [|assumption..].
  intros a b Ha Hb.
  destruct (decide (a = 3%nat)) as [->|Ha3]; destruct (decide (b = 3%nat)) as [->|Hb3].
  - reflexivity.
  - rewrite (proj2 (composed_covariance_homogeneous delta Ct Cs b Ht Hs ltac:(lia))).
    rewrite (proj2 (composed_covariance_homogeneous delta' Ct Cs b Ht Hs ltac:(lia))).
    reflexivity.
  - rewrite (proj1 (composed_covariance_homogeneous delta Ct Cs a Ht Hs ltac:(lia))).
    rewrite (proj1 (composed_covariance_homogeneous delta' Ct Cs a Ht Hs ltac:(lia))).
    reflexivity.
  - rewrite !composed_space_block by (assumption || lia).
    unfold madd, mmul, transpose. f_equal.
    apply sum_upto_ext. intros l Hl. rewrite (HR b l) by lia. f_equal.
    apply sum_upto_ext. intros l' Hl'. rewrite (HR a l') by lia. reflexivity.
Qed.

End WeightBlock.

(** ** Symmetry *)

Section Symmetry.
Import Eigen Props Shapes.
Local Open Scope Qc_scope.

Lemma symmetric_entries (A : Matrix 4 4) :
  symmetric A ->
  A 1%nat 0%nat = A 0%nat 1%nat /\ A 2%nat 0%nat = A 0%nat 2%nat
  /\ A 3%nat 0%nat = A 0%nat 3%nat /\ A 2%nat 1%nat = A 1%nat 2%nat
  /\ A 3%nat 1%nat = A 1%nat 3%nat /\ A 3%nat 2%nat = A 2%nat 3%nat.
Proof. intros HA. repeat split; apply HA; lia. Qed.

Lemma cofactor_symmetric (A : Matrix 4 4) :
  symmetric A -> symmetric (n:=4) (cofactor A).
Proof.
  intros HA i j Hi Hj. apply symmetric_entries in HA.
  destruct HA as (a10 & a20 & a30 & a21 & a31 & a32).
  destruct i as [|[|[|[|i]]]]; try lia; destruct j as [|[|[|[|j]]]]; try lia;
    try reflexivity;
    cbv [cofactor det3 minor skip sign Nat.even Nat.add Nat.ltb Nat.leb];
    rewrite ?a10, ?a20, ?a30, ?a21, ?a31, ?a32; dring.
Qed.

Lemma inverse_symmetric (A : Matrix 4 4) : symmetric A -> symmetric (inverse A).
Proof.
  intros HA i j Hi Hj. unfold inverse.
  rewrite (cofactor_symmetric A HA j i) by assumption. reflexivity.
Qed.

Lemma composed_symmetric (delta : Isometry3d) (Ct Cs : Matrix 4 4) :
  symmetric Ct -> symmetric Cs ->
  symmetric (set_entry (madd Ct (mmul (k:=4) (mmul (k:=4) (matrix delta) Cs)
                                      (transpose (matrix delta)))) 3 3 1).
Proof.
  intros Ht Hs i j Hi Hj.
  pose proof (Ht i j Hi Hj) as Et.
  apply symmetric_entries in Hs.
  destruct Hs as (s10 & s20 & s30 & s21 & s31 & s32).
  unfold set_entry, madd. rewrite Et.
  rewrite (andb_comm (j =? 3)%nat).
  destruct ((i =? 3)%nat && (j =? 3)%nat); [reflexivity|]. f_equal.
  cbv [mmul transpose sum_upto].
  rewrite ?s10, ?s20, ?s30, ?s21, ?s31, ?s32. dring.
Qed.

Lemma mahalanobis_weight_symmetric (delta : Isometry3d) (Ct Cs : Matrix 4 4) :
  symmetric Ct -> symmetric Cs ->
  symmetric (IntegratedGICPFactor.mahalanobis_weight delta Ct Cs).
Proof.
  intros Ht Hs i j Hi Hj. unfold IntegratedGICPFactor.mahalanobis_weight. cbv zeta.
  unfold set_entry at 1 3. rewrite (andb_comm (j =? 3)%nat).
  destruct ((i =? 3)%nat && (j =? 3)%nat); [reflexivity|].
  apply inverse_symmetric; [|assumption..].
  apply composed_symmetric; assumption.
Qed.

(** [J^T * W * J] is symmetric when [W] is. *)
Lemma congruence_symmetric (J : Matrix 4 6) (W : Matrix 4 4) :
  symmetric W ->
  symmetric (n:=6) (mmul (k:=4) (mmul (k:=4) (transpose J) W) J).
Proof.
  intros HW i j Hi Hj. apply symmetric_entries in HW.
  destruct HW as (a10 & a20 & a30 & a21 & a31 & a32).
  cbv [mmul transpose sum_upto].
  rewrite ?a10, ?a20, ?a30, ?a21, ?a31, ?a32. dring.
Qed.

Lemma matrix_sum_symmetric n g (sel : Contribution.t -> Matrix 6 6) :
  (forall i c, (i < n)%nat -> g i = Some c -> symmetric (sel c)) ->
  symmetric (matrix_sum n g sel).
Proof.
  intros Hg a b Ha Hb. unfold matrix_sum.
  apply sum_upto_ext. intros i Hi.
  destruct (g i) as [c|] eqn:E; cbn; [|reflexivity].
  apply (Hg i c Hi E); assumption.
Qed.

Lemma symmetric_meq {n} (A B : Matrix n n) : meq A B -> symmetric B -> symmetric A.
Proof.
  intros HAB HB i j Hi Hj. rewrite !HAB by assumption. apply HB; assumption.
Qed.

End Symmetry.

(** ** Symmetry of the Hessian blocks *)

Section HessianSymmetry.
Import Eigen Props Shapes.
Local Open Scope Qc_scope.
Context {TargetFrame SourceFrame IntensityGradients : Type}.
Context `{frame.traits TargetFrame} `{frame.traits SourceFrame}
        `{frame.gradient_traits IntensityGradients} `{Libm}.

Local Abbreviation gicp := (IntegratedGICPFactor.t TargetFrame SourceFrame).
Local Abbreviation color :=
  (IntegratedColorConsistencyFactor.t TargetFrame SourceFrame IntensityGradients).

Lemma weight_of_symmetric (f : gicp) delta i c :
  (forall k, symmetric (frame.cov (IntegratedGICPFactor.target f) k)) ->
  (forall k, symmetric (frame.cov (IntegratedGICPFactor.source f) k)) ->
  symmetric (IntegratedGICPFactor.weight_of f delta i c).
Proof.
  intros Ht Hs. unfold IntegratedGICPFactor.weight_of.
  destruct (c <? 0)%Z; [intros a b _ _; reflexivity|].
  apply mahalanobis_weight_symmetric; auto.
Qed.

(** X14. With symmetric covariances, every weight stored by
    [update_correspondences] is a symmetric matrix. *)
Theorem stored_weights_symmetric (f : gicp) (delta : Isometry3d) :
  (forall k, symmetric (frame.cov (IntegratedGICPFactor.target f) k)) ->
  (forall k, symmetric (frame.cov (IntegratedGICPFactor.source f) k)) ->
  Forall symmetric
         (IntegratedGICPFactor.mahalanobis
            (fst (IntegratedGICPFactor.update_correspondences f delta))).
Proof.
  intros Ht Hs. rewrite update_correspondences_eq. cbn.
  apply Forall_forall. intros W HW. apply list_elem_of_In, in_map_iff in HW.
  destruct HW as (i & <- & _). apply weight_of_symmetric; assumption.
Qed.

Lemma ensured_weights_symmetric (f : gicp) delta i :
  (forall k, symmetric (frame.cov (IntegratedGICPFactor.target f) k)) ->
  (forall k, symmetric (frame.cov (IntegratedGICPFactor.source f) k)) ->
  Forall symmetric (IntegratedGICPFactor.mahalanobis f) ->
  symmetric (IntegratedGICPFactor.mahalanobis_at
               (fst (IntegratedGICPFactor.ensure_correspondences f delta)) i).
Proof.
  intros Ht Hs Hm.
  assert (Hall : Forall symmetric
            (IntegratedGICPFactor.mahalanobis
               (fst (IntegratedGICPFactor.ensure_correspondences f delta)))).
  { unfold IntegratedGICPFactor.ensure_correspondences. destruct (negb _); [|exact Hm].
    rewrite update_correspondences_eq. cbn.
    apply Forall_forall. intros W HW. apply list_elem_of_In, in_map_iff in HW.
    destruct HW as (k & <- & _). apply weight_of_symmetric; assumption. }
  unfold IntegratedGICPFactor.mahalanobis_at.
  destruct (_ !! i) as [W|] eqn:E; cbn.
  - exact (proj1 (Forall_lookup _ _) Hall i W E).
  - intros a b _ _. reflexivity.
Qed.

(** X15. The blocks [H_target] and [H_source] written by [evaluate] are
    symmetric: always for the colour consistency factor, and for the
    GICP factor when the covariances and the weights held before the
    call are symmetric. *)
Theorem hessian_blocks_symmetric (fg : gicp) (fc : color) (delta : Isometry3d)
    (o : Outputs) :
  all_requested o = true ->
  (1 <= IntegratedGICPFactor.num_threads fg)%nat ->
  (1 <= IntegratedColorConsistencyFactor.num_threads fc)%nat ->
  (forall k, symmetric (frame.cov (IntegratedGICPFactor.target fg) k)) ->
  (forall k, symmetric (frame.cov (IntegratedGICPFactor.source fg) k)) ->
  Forall symmetric (IntegratedGICPFactor.mahalanobis fg) ->
  all_blocks (IntegratedGICPFactor.outputs (IntegratedGICPFactor.evaluate fg delta o))
             (fun Ht Hs _ _ _ => symmetric Ht /\ symmetric Hs)
  /\ all_blocks (IntegratedColorConsistencyFactor.outputs
                   (IntegratedColorConsistencyFactor.evaluate fc delta o))
                (fun Ht Hs _ _ _ => symmetric Ht /\ symmetric Hs).
Proof.
  intros Ho Tg Tc Ct Cs Hm. split.
  - apply gicp_outputs_from_sums; [assumption..|].
    intros Ht Hs Hts bt bs g n S1 S2 _ _ _.
    split; (eapply symmetric_meq; [eassumption|]); apply matrix_sum_symmetric;
      intros i c _ E; subst g; unfold Contribution.gicp in E;
      destruct (corr_at _ i <? 0)%Z; try discriminate;
      injection E as <-; cbn [Contribution.Ht Contribution.Hs];
      apply congruence_symmetric, ensured_weights_symmetric; assumption.
  - apply color_outputs_from_sums; [assumption..|].
    intros Ht Hs Hts bt bs g n S1 S2 _ _ _.
    split; (eapply symmetric_meq; [eassumption|]); apply matrix_sum_symmetric;
      intros i c _ E; subst g; unfold Contribution.color in E;
      destruct (corr_at _ i <? 0)%Z; try discriminate;
      injection E as <-; cbn [Contribution.Ht Contribution.Hs];
      intros a b _ _; unfold outer, vscale_r; dring.
Qed.

End HessianSymmetry.

(** ** The homogeneous coordinate *)

Section Homogeneous.
Import Eigen Props Shapes.
Local Open Scope Qc_scope.

(** X16. For points with the same fourth coordinate, the cost and the
    five per-point terms of the GICP factor read the 3x3 space block of
    the weight only: two weights that agree there give the same
    terms. *)
Theorem homogeneous_weight_entries_unused (delta : Isometry3d)
    (mean_A mean_B : Vector 4) (W W' : Matrix 4 4) :
  mean_B 3%nat = mean_A 3%nat ->
  meq (block33 W 0 0) (block33 W' 0 0) ->
  let transed_mean_A := transform delta mean_A in
  let error := vsub mean_B transed_mean_A in
  let Jt := IntegratedGICPFactor.J_target transed_mean_A in
  let Js := IntegratedGICPFactor.J_source delta mean_A in
  IntegratedGICPFactor.point_cost W error = IntegratedGICPFactor.point_cost W' error
  /\ meq (mmul (k:=4) (mmul (k:=4) (transpose Jt) W) Jt)
         (mmul (k:=4) (mmul (k:=4) (transpose Jt) W') Jt)
  /\ meq (mmul (k:=4) (mmul (k:=4) (transpose Js) W) Js)
         (mmul (k:=4) (mmul (k:=4) (transpose Js) W') Js)
  /\ meq (mmul (k:=4) (mmul (k:=4) (transpose Jt) W) Js)
         (mmul (k:=4) (mmul (k:=4) (transpose Jt) W') Js)
  /\ veq (mvmul (c:=4) (mmul (k:=4) (transpose Jt) W) error)
         (mvmul (c:=4) (mmul (k:=4) (transpose Jt) W') error)
  /\ veq (mvmul (c:=4) (mmul (k:=4) (transpose Js) W) error)
         (mvmul (c:=4) (mmul (k:=4) (transpose Js) W') error).
Proof.
  intros Hw HW transed_mean_A error Jt Js.
  assert (He : error 3%nat = 0).
  { subst error transed_mean_A. unfold vsub.
    change (transform delta mean_A 3%nat) with (mean_A 3%nat). rewrite Hw. dring. }
  assert (HJt : forall a, Jt 3%nat a = 0) by (intros a; reflexivity).
  assert (HJs : forall a, Js 3%nat a = 0) by (intros a; reflexivity).
  pose proof (HW 0%nat 0%nat ltac:(lia) ltac:(lia)) as w00.
  pose proof (HW 0%nat 1%nat ltac:(lia) ltac:(lia)) as w01.
  pose proof (HW 0%nat 2%nat ltac:(lia) ltac:(lia)) as w02.
  pose proof (HW 1%nat 0%nat ltac:(lia) ltac:(lia)) as w10.
  pose proof (HW 1%nat 1%nat ltac:(lia) ltac:(lia)) as w11.
  pose proof (HW 1%nat 2%nat ltac:(lia) ltac:(lia)) as w12.
  pose proof (HW 2%nat 0%nat ltac:(lia) ltac:(lia)) as w20.
  pose proof (HW 2%nat 1%nat ltac:(lia) ltac:(lia)) as w21.
  pose proof (HW 2%nat 2%nat ltac:(lia) ltac:(lia)) as w22.
  cbv [block33 Nat.add] in w00, w01, w02, w10, w11, w12, w20, w21, w22.
  clearbody error Jt Js. clear HW.
  repeat split; try (intros a b Ha Hb); try (intros a Ha);
    cbv [IntegratedGICPFactor.point_cost dot vmmul vscale mvmul mmul transpose sum_upto];
    rewrite ?He, ?HJt, ?HJs, ?w00, ?w01, ?w02, ?w10, ?w11, ?w12, ?w20, ?w21, ?w22;
    dring.
Qed.

End Homogeneous.

(** ** The photometric residual along the normal *)

Section GradientAlongNormal.
Import Eigen Props Shapes IntegratedColorConsistencyFactor.
Local Open Scope Qc_scope.
Context {TargetFrame SourceFrame IntensityGradients : Type}.
Context `{frame.traits TargetFrame} `{frame.traits SourceFrame}
        `{frame.gradient_traits IntensityGradients}.

(** X17. An intensity gradient along the unit normal of the target
    point contributes nothing: the photometric residual is the
    difference of the two intensities and its derivative with respect
    to the transformed point is zero. *)
Theorem gradient_along_normal_is_not_seen
    (f : t TargetFrame SourceFrame IntensityGradients) (delta : Isometry3d)
    (i : nat) (target_index : Z) (s : double) :
  let k := Z.to_nat target_index in
  let normal_B := frame.normal (target f) k in
  let gradient_B := frame.intensity_gradient (target_gradients f) k in
  dot (n:=4) normal_B normal_B = 1 ->
  normal_B 3%nat = 0 ->
  veq (n:=4) gradient_B (vscale s normal_B) ->
  error_photo f delta i target_index
  = frame.intensity (target f) k - frame.intensity (source f) i
  /\ veq (n:=4) (J_ephoto_transed normal_B gradient_B) vZero.
Proof.
  intros k n g Hnn Hn3 Hg. split.
  - unfold error_photo. fold k. fold n. fold g.
    set (t := transform delta (frame.point (source f) i)).
    set (m := frame.point (target f) k).
    assert (E : dot (n:=4) g (vsub (vsub t (vscale (dot (n:=4) (vsub t m) n) n)) m)
                = s * (dot (n:=4) (vsub t m) n
                       - dot (n:=4) (vsub t m) n * dot (n:=4) n n)).
    { clear Hnn. clearbody t m n g.
      cbv [dot vsub vscale sum_upto].
      rewrite (Hg 0%nat), (Hg 1%nat), (Hg 2%nat), (Hg 3%nat) by lia.
      unfold vscale. dring. }
    rewrite E, Hnn. dring.
  - clearbody n g. intros j Hj.
    transitivity (s * n j * (1 - dot (n:=4) n n)); [|rewrite Hnn; unfold vZero; dring].
    destruct j as [|[|[|[|j]]]]; try lia;
      cbv [J_ephoto_transed vmmul set_entry msub Identity outer sum_upto dot
           Nat.eqb andb];
      rewrite (Hg 0%nat), (Hg 1%nat), (Hg 2%nat), (Hg 3%nat) by lia;
      unfold vscale; rewrite ?Hn3; dring.
Qed.

End GradientAlongNormal.

(** ** The first call and the calls after it *)

Section Calls.
Import Eigen Props Shapes.
Local Open Scope Qc_scope.
Context {TargetFrame SourceFrame IntensityGradients : Type}.
Context `{frame.traits TargetFrame} `{frame.traits SourceFrame}
        `{frame.gradient_traits IntensityGradients} `{Libm}.

Local Abbreviation gicp := (IntegratedGICPFactor.t TargetFrame SourceFrame).
Local Abbreviation color :=
  (IntegratedColorConsistencyFactor.t TargetFrame SourceFrame IntensityGradients).

Lemma below_nonneg (tol x : double) : tol <= 0 -> 0 <= x -> ltb x tol = false.
Proof. intros Ht Hx. apply ltb_ge. eapply Qcle_trans; eassumption. Qed.

(** X18. A refresh is skipped only when both tolerances are positive:
    with an angle and a norm that are not negative, one tolerance that
    is zero or negative makes [do_update] true in both factors, although
    the guard of the tolerance test passes when the other tolerance is
    positive. *)
Theorem one_tolerance_never_skips (fg : gicp) (fc : color) (delta : Isometry3d) :
  (forall R, 0 <= AngleAxis_angle R) ->
  (forall x, 0 <= sqrt x) ->
  IntegratedGICPFactor.correspondence_update_tolerance_rot fg <= 0
  \/ IntegratedGICPFactor.correspondence_update_tolerance_trans fg <= 0 ->
  IntegratedColorConsistencyFactor.correspondence_update_tolerance_rot fc <= 0
  \/ IntegratedColorConsistencyFactor.correspondence_update_tolerance_trans fc <= 0 ->
  IntegratedGICPFactor.do_update fg delta = true
  /\ IntegratedColorConsistencyFactor.do_update fc delta = true.
Proof.
  intros Ha Hs Hg Hc. split.
  - unfold IntegratedGICPFactor.do_update. destruct (_ && _); [|reflexivity].
    cbv zeta. destruct Hg as [Hg | Hg].
    + rewrite (below_nonneg _ _ Hg (Ha _)). reflexivity.
    + unfold norm. rewrite (below_nonneg _ _ Hg (Hs _)), andb_false_r. reflexivity.
  - unfold IntegratedColorConsistencyFactor.do_update. destruct (_ && _); [|reflexivity].
    cbv zeta. destruct Hc as [Hc | Hc].
    + rewrite (below_nonneg _ _ Hc (Ha _)). reflexivity.
    + unfold norm. rewrite (below_nonneg _ _ Hc (Hs _)), andb_false_r. reflexivity.
Qed.






(** X20. A factor the constructor returns has the attributes it checks
    for, and its first [evaluate] refreshes: one search per source point
    in index order; with the constructors' zero tolerances the next
    [update_correspondences] refreshes again. *)
Theorem constructed_factor_first_evaluate
    (target : TargetFrame) (source : SourceFrame) (tree : NearestNeighborSearch)
    (gradients : IntensityGradients) (uninit : Isometry3d)
    (fg : gicp) (fc : color) (delta : Isometry3d) (o : Outputs) :
  IntegratedGICPFactor.make target source tree uninit = Some fg ->
  IntegratedColorConsistencyFactor.make target source tree gradients uninit = Some fc ->
  let rg := IntegratedGICPFactor.evaluate fg delta o in
  let rc := IntegratedColorConsistencyFactor.evaluate fc delta o in
  (frame.has_points target = true /\ frame.has_covs target = true
   /\ frame.has_points source = true /\ frame.has_covs source = true
   /\ frame.has_normals target = true /\ frame.has_intensities target = true
   /\ frame.has_intensities source = true)
  /\ (IntegratedGICPFactor.queries rg
      = map (fun i => transform delta (frame.point source i)) (seq 0 (frame.size source))
      /\ IntegratedGICPFactor.last_correspondence_point
           (fst (IntegratedGICPFactor.update_correspondences
                   (IntegratedGICPFactor.factor rg) delta)) = delta
      /\ length (snd (IntegratedGICPFactor.update_correspondences
                        (IntegratedGICPFactor.factor rg) delta)) = frame.size source)
  /\ (IntegratedColorConsistencyFactor.queries rc
      = map (fun i => vset (transform delta (frame.point source i)) 3
                           (frame.intensity source i))
            (seq 0 (frame.size source))
      /\ length (snd (IntegratedColorConsistencyFactor.update_correspondences
                        (IntegratedColorConsistencyFactor.factor rc) delta))
         = frame.size source).
Proof.
  intros Mg Mc rg rc. subst rg rc.
  unfold IntegratedGICPFactor.make in Mg.
  unfold IntegratedColorConsistencyFactor.make in Mc.
  destruct (frame.has_points target), (frame.has_covs target),
    (frame.has_points source), (frame.has_covs source),
    (frame.has_normals target), (frame.has_intensities target),
    (frame.has_intensities source); cbn in Mg, Mc; try discriminate.
  injection Mg as <-. injection Mc as <-.
  split; [auto 10|].
  rewrite evaluate_factor_is_ensured_gicp, evaluate_factor_is_ensured_color.
  unfold IntegratedGICPFactor.evaluate, IntegratedColorConsistencyFactor.evaluate.
  unfold IntegratedGICPFactor.ensure_correspondences,
    IntegratedColorConsistencyFactor.ensure_correspondences.
  cbn [IntegratedGICPFactor.correspondences IntegratedGICPFactor.source
       IntegratedColorConsistencyFactor.correspondences
       IntegratedColorConsistencyFactor.source length].
  destruct (frame.size source) as [|n] eqn:En.
  - cbn [Nat.eqb negb fst seq map].
    rewrite update_correspondences_eq, color_update_correspondences_eq.
    cbn. rewrite En. cbn.
    unfold IntegratedGICPFactor.do_update, IntegratedColorConsistencyFactor.do_update.
    cbn. rewrite En. cbn.
    assert (Hz : ltb 0 0 = false) by reflexivity. rewrite !Hz. cbn. auto.
  - cbn [Nat.eqb negb].
    rewrite !update_correspondences_eq, !color_update_correspondences_eq.
    cbn [fst snd IntegratedGICPFactor.correspondences IntegratedGICPFactor.source
         IntegratedGICPFactor.set_cache IntegratedGICPFactor.last_correspondence_point
         IntegratedColorConsistencyFactor.correspondences
         IntegratedColorConsistencyFactor.source
         IntegratedColorConsistencyFactor.set_cache].
    rewrite En.
    assert (Ug : forall g : gicp,
              IntegratedGICPFactor.correspondence_update_tolerance_rot g = 0 ->
              IntegratedGICPFactor.correspondence_update_tolerance_trans g = 0 ->
              IntegratedGICPFactor.do_update g delta = true).
    { intros g Er Et. unfold IntegratedGICPFactor.do_update. rewrite Er, Et.
      assert (Hz : ltb 0 0 = false) by reflexivity. rewrite Hz, andb_false_r.
      reflexivity. }
    assert (Uc : forall g : color,
              IntegratedColorConsistencyFactor.correspondence_update_tolerance_rot g = 0 ->
              IntegratedColorConsistencyFactor.correspondence_update_tolerance_trans g = 0 ->
              IntegratedColorConsistencyFactor.do_update g delta = true).
    { intros g Er Et. unfold IntegratedColorConsistencyFactor.do_update. rewrite Er, Et.
      assert (Hz : ltb 0 0 = false) by reflexivity. rewrite Hz, andb_false_r.
      reflexivity. }
    rewrite !Ug, !Uc by reflexivity.
    cbn [IntegratedGICPFactor.source IntegratedGICPFactor.set_cache
         IntegratedColorConsistencyFactor.source
         IntegratedColorConsistencyFactor.set_cache].
    rewrite !seq_map_length. repeat split.
Qed.

End Calls.

(** ** The further properties on reference inputs *)

Section MoreExamples.
Import Eigen Props Shapes Sample MoreSamples.
Local Open Scope Qc_scope.

Ltac qc_compute := apply Qc_is_canon; vm_compute; reflexivity.
Ltac qc_differ :=
  let E := fresh in intros E; apply (f_equal this) in E; vm_compute in E; discriminate.
Ltac qc_le := vm_compute; discriminate.

(** The linear scan reports indices of points of its cloud. *)
Lemma linear_search_bounded (c : cloud) :
  bounded_search (frame.size c) (linear_search (points c)).
Proof.
  intros q max_sq_dist Hf.
  destruct (linear_search_exact c q max_sq_dist Hf) as (k & Hk & Hlt & _).
  rewrite Hk. lia.
Qed.

Lemma sqrt_floor_nonneg (x : double) : 0 <= sqrt_floor x.
Proof.
  unfold sqrt_floor, Qcle. cbn [this Q2Qc]. rewrite !Qred_correct.
  unfold Qle. cbn [Qnum Qden].
  pose proof (Z.sqrt_nonneg (Qnum x)). lia.
Qed.

Lemma Identity_symmetric {n} : symmetric (@Identity n).
Proof. intros i j _ _. unfold Identity. rewrite Nat.eqb_sym. reflexivity. Qed.

Lemma Zero_symmetric {n} : symmetric (@Zero n n).
Proof. intros i j _ _. reflexivity. Qed.

Lemma identity_covs_symmetric (c : cloud) :
  Forall (fun C => C = Identity) (covs c) ->
  forall k, symmetric (frame.cov c k).
Proof.
  intros Hc k. cbn [frame.cov cloud_traits].
  destruct (covs c !! k) as [C|] eqn:E; cbn [default].
  - rewrite (proj1 (Forall_lookup _ _) Hc k C E). apply Identity_symmetric.
  - apply Zero_symmetric.
Qed.

Lemma space_identity_zero_homogeneous : zero_homogeneous space_identity.
Proof.
  intros i Hi. do 4 (destruct i as [|i]; [split; reflexivity|]). lia.
Qed.

(** X1, on an input: two points matched with themselves, moved by 1/2
    along x. *)
Lemma gicp_evaluate_sums_witness :
  let f := gicp two_points two_points (of_Z 100) 0 0 Isometry3d_Identity [] in
  let delta := shift_x (1 # 2) in
  let o := blocks_of (of_Z 9) in
  let r := IntegratedGICPFactor.evaluate f delta o in
  let g := Contribution.gicp (IntegratedGICPFactor.factor r) delta in
  let n := frame.size (IntegratedGICPFactor.source f) in
  all_blocks (IntegratedGICPFactor.outputs r) (fun Ht Hs Hts bt bs =>
    meq Ht (matrix_sum n g Contribution.Ht)
    /\ meq Hs (matrix_sum n g Contribution.Hs)
    /\ meq Hts (matrix_sum n g Contribution.Hts)
    /\ veq bt (vector_sum n g Contribution.bt)
    /\ veq bs (vector_sum n g Contribution.bs)).
Proof.
  cbv zeta.
  apply (gicp_evaluate_sums
           (gicp two_points two_points (of_Z 100) 0 0 Isometry3d_Identity [])
           (shift_x (1 # 2)) (blocks_of (of_Z 9))).
  - reflexivity.
  - cbn. lia.
Defined.

(** X2, on an input: a source point one unit off its target point. *)
Lemma color_evaluate_sums_witness :
  let f := color one_point shifted_point gradients1 (of_Z 100) 0 0
                 Isometry3d_Identity [] in
  let delta := Isometry3d_Identity in
  let o := blocks_of (of_Z 9) in
  let r := IntegratedColorConsistencyFactor.evaluate f delta o in
  let g := Contribution.color (IntegratedColorConsistencyFactor.factor r) delta in
  let n := frame.size (IntegratedColorConsistencyFactor.source f) in
  all_blocks (IntegratedColorConsistencyFactor.outputs r) (fun Ht Hs Hts bt bs =>
    meq Ht (matrix_sum n g Contribution.Ht)
    /\ meq Hs (matrix_sum n g Contribution.Hs)
    /\ meq Hts (matrix_sum n g Contribution.Hts)
    /\ veq bt (vector_sum n g Contribution.bt)
    /\ veq bs (vector_sum n g Contribution.bs)).
Proof.
  cbv zeta.
  apply (color_evaluate_sums
           (color one_point shifted_point gradients1 (of_Z 100) 0 0
                  Isometry3d_Identity [])
           Isometry3d_Identity (blocks_of (of_Z 9))).
  - reflexivity.
  - cbn. lia.
Defined.


(** X6, on an input: a cache of the right size under zero tolerances. *)
Lemma zero_tolerances_always_refresh_witness :
  let fg := gicp one_point one_point 1 0 0 Isometry3d_Identity [0%Z] in
  let fc := color one_point one_point gradients1 1 0 0 Isometry3d_Identity [0%Z] in
  let delta := shift_x (1 # 2) in
  (IntegratedGICPFactor.do_update fg delta = true
   /\ length (snd (IntegratedGICPFactor.update_correspondences fg delta))
      = frame.size (IntegratedGICPFactor.source fg)
   /\ IntegratedGICPFactor.last_correspondence_point
        (fst (IntegratedGICPFactor.update_correspondences fg delta)) = delta)
  /\ (IntegratedColorConsistencyFactor.do_update fc delta = true
      /\ length (snd (IntegratedColorConsistencyFactor.update_correspondences fc delta))
         = frame.size (IntegratedColorConsistencyFactor.source fc)).
Proof.
  cbv zeta.
  apply (zero_tolerances_always_refresh
           (gicp one_point one_point 1 0 0 Isometry3d_Identity [0%Z])
           (color one_point one_point gradients1 1 0 0 Isometry3d_Identity [0%Z])
           (shift_x (1 # 2))); qc_le.
Defined.

(** X8, on an input: the linear scan over two points. *)
Lemma correspondences_stay_in_range_witness :
  let fg := gicp two_points two_points (of_Z 100) 0 0 Isometry3d_Identity [] in
  let fc := color two_points two_points gradients1 (of_Z 100) 0 0
                  Isometry3d_Identity [] in
  let delta := shift_x (1 # 2) in
  let o := no_outputs in
  let ng := frame.size (IntegratedGICPFactor.target fg) in
  let nc := frame.size (IntegratedColorConsistencyFactor.target fc) in
  (in_range ng (IntegratedGICPFactor.correspondences
                  (fst (IntegratedGICPFactor.update_correspondences fg delta)))
   /\ in_range ng (IntegratedGICPFactor.correspondences
                     (IntegratedGICPFactor.factor
                        (IntegratedGICPFactor.evaluate fg delta o))))
  /\ (in_range nc (IntegratedColorConsistencyFactor.correspondences
                     (fst (IntegratedColorConsistencyFactor.update_correspondences fc delta)))
      /\ in_range nc (IntegratedColorConsistencyFactor.correspondences
                        (IntegratedColorConsistencyFactor.factor
                           (IntegratedColorConsistencyFactor.evaluate fc delta o)))).
Proof.
  cbv zeta.
  apply (correspondences_stay_in_range
           (gicp two_points two_points (of_Z 100) 0 0 Isometry3d_Identity [])
           (color two_points two_points gradients1 (of_Z 100) 0 0
                  Isometry3d_Identity [])
           (shift_x (1 # 2)) no_outputs).
  - apply (linear_search_bounded two_points).
  - vm_compute. reflexivity.
  - constructor.
  - apply (linear_search_bounded two_points).
  - vm_compute. reflexivity.
  - constructor.
Defined.


(** X10, on an input: a matched pair whose cost is not zero. *)
Lemma gicp_no_thread_zero_blocks_witness :
  let f := gicp_no_thread in
  let o := blocks_of (of_Z 9) in
  zero_blocks (IntegratedGICPFactor.outputs
                 (IntegratedGICPFactor.evaluate f Isometry3d_Identity o))
  /\ IntegratedGICPFactor.cost (IntegratedGICPFactor.evaluate f Isometry3d_Identity o)
     = IntegratedGICPFactor.cost
         (IntegratedGICPFactor.evaluate f Isometry3d_Identity no_outputs).
Proof.
  cbv zeta.
  apply (gicp_no_thread_zero_blocks gicp_no_thread Isometry3d_Identity
           (blocks_of (of_Z 9))); reflexivity.
Defined.

(** X11, on an input: an empty source against two target points. *)
Lemma empty_source_costs_nothing_witness :
  let fg := gicp two_points empty_cloud 1 0 0 Isometry3d_Identity [] in
  let fc := color two_points empty_cloud gradients1 1 0 0 Isometry3d_Identity [] in
  let delta := shift_x (1 # 2) in
  let o := blocks_of (of_Z 9) in
  let rg := IntegratedGICPFactor.evaluate fg delta o in
  let rc := IntegratedColorConsistencyFactor.evaluate fc delta o in
  (IntegratedGICPFactor.cost rg = 0
   /\ IntegratedGICPFactor.queries rg = []
   /\ IntegratedGICPFactor.correspondences (IntegratedGICPFactor.factor rg) = []
   /\ zero_blocks (IntegratedGICPFactor.outputs rg))
  /\ (IntegratedColorConsistencyFactor.cost rc = 0
      /\ IntegratedColorConsistencyFactor.queries rc = []
      /\ IntegratedColorConsistencyFactor.correspondences
           (IntegratedColorConsistencyFactor.factor rc) = []
      /\ zero_blocks (IntegratedColorConsistencyFactor.outputs rc)).
Proof.
  cbv zeta.
  apply (empty_source_costs_nothing
           (gicp two_points empty_cloud 1 0 0 Isometry3d_Identity [])
           (color two_points empty_cloud gradients1 1 0 0 Isometry3d_Identity [])
           (shift_x (1 # 2)) (blocks_of (of_Z 9))); reflexivity.
Defined.

(** X12, on an input: the quarter turn and two covariances that are the
    identity on the space coordinates. *)
Lemma weight_inverts_space_covariance_witness :
  let W := block33 (IntegratedGICPFactor.mahalanobis_weight
                      quarter_turn space_identity space_identity) 0 0 in
  let S := madd (block33 space_identity 0 0)
                (mmul (k:=3) (mmul (k:=3) (linear quarter_turn)
                                   (block33 space_identity 0 0))
                      (transpose (linear quarter_turn))) in
  meq (mmul (k:=3) S W) Identity /\ meq (mmul (k:=3) W S) Identity.
Proof.
  cbv zeta.
  apply (weight_inverts_space_covariance quarter_turn space_identity space_identity).
  - apply space_identity_zero_homogeneous.
  - apply space_identity_zero_homogeneous.
  - qc_differ.
Defined.

(** X13, on an input: a translation against the identity. *)
Lemma weight_ignores_translation_witness :
  meq (IntegratedGICPFactor.mahalanobis_weight
         (shift_x (1 # 2)) space_identity space_identity)
      (IntegratedGICPFactor.mahalanobis_weight
         Isometry3d_Identity space_identity space_identity).
Proof.
  apply (weight_ignores_translation (shift_x (1 # 2)) Isometry3d_Identity
           space_identity space_identity).
  - apply space_identity_zero_homogeneous.
  - apply space_identity_zero_homogeneous.
  - intros i j _ _. reflexivity.
Defined.

(** X14, on an input: identity covariances. *)
Lemma stored_weights_symmetric_witness :
  let f := gicp two_points two_points (of_Z 100) 0 0 Isometry3d_Identity [] in
  Forall symmetric
         (IntegratedGICPFactor.mahalanobis
            (fst (IntegratedGICPFactor.update_correspondences f (shift_x (1 # 2))))).
Proof.
  cbv zeta.
  apply (stored_weights_symmetric
           (gicp two_points two_points (of_Z 100) 0 0 Isometry3d_Identity [])
           (shift_x (1 # 2))).
  - apply identity_covs_symmetric. repeat constructor.
  - apply identity_covs_symmetric. repeat constructor.
Defined.

(** X15, on an input. *)
Lemma hessian_blocks_symmetric_witness :
  let fg := gicp two_points two_points (of_Z 100) 0 0 Isometry3d_Identity [] in
  let fc := color one_point shifted_point gradients1 (of_Z 100) 0 0
                  Isometry3d_Identity [] in
  let delta := shift_x (1 # 2) in
  let o := blocks_of (of_Z 9) in
  all_blocks (IntegratedGICPFactor.outputs (IntegratedGICPFactor.evaluate fg delta o))
             (fun Ht Hs _ _ _ => symmetric Ht /\ symmetric Hs)
  /\ all_blocks (IntegratedColorConsistencyFactor.outputs
                   (IntegratedColorConsistencyFactor.evaluate fc delta o))
                (fun Ht Hs _ _ _ => symmetric Ht /\ symmetric Hs).
Proof.
  cbv zeta.
  apply (hessian_blocks_symmetric
           (gicp two_points two_points (of_Z 100) 0 0 Isometry3d_Identity [])
           (color one_point shifted_point gradients1 (of_Z 100) 0 0
                  Isometry3d_Identity [])
           (shift_x (1 # 2)) (blocks_of (of_Z 9))).
  - reflexivity.
  - cbn. lia.
  - cbn. lia.
  - apply identity_covs_symmetric. repeat constructor.
  - apply identity_covs_symmetric. repeat constructor.
  - constructor.
Defined.

(** X16, on an input: the identity weight against the identity on the
    space coordinates. *)
Lemma homogeneous_weight_entries_unused_witness :
  let delta := quarter_turn in
  let mean_A : Vector 4 := vec [1; 2; 3; 1]%Z in
  let mean_B : Vector 4 := vec [0; 0; 0; 1]%Z in
  let W : Matrix 4 4 := Identity in
  let W' := space_identity in
  let transed_mean_A := transform delta mean_A in
  let error := vsub mean_B transed_mean_A in
  let Jt := IntegratedGICPFactor.J_target transed_mean_A in
  let Js := IntegratedGICPFactor.J_source delta mean_A in
  IntegratedGICPFactor.point_cost W error = IntegratedGICPFactor.point_cost W' error
  /\ meq (mmul (k:=4) (mmul (k:=4) (transpose Jt) W) Jt)
         (mmul (k:=4) (mmul (k:=4) (transpose Jt) W') Jt)
  /\ meq (mmul (k:=4) (mmul (k:=4) (transpose Js) W) Js)
         (mmul (k:=4) (mmul (k:=4) (transpose Js) W') Js)
  /\ meq (mmul (k:=4) (mmul (k:=4) (transpose Jt) W) Js)
         (mmul (k:=4) (mmul (k:=4) (transpose Jt) W') Js)
  /\ veq (mvmul (c:=4) (mmul (k:=4) (transpose Jt) W) error)
         (mvmul (c:=4) (mmul (k:=4) (transpose Jt) W') error)
  /\ veq (mvmul (c:=4) (mmul (k:=4) (transpose Js) W) error)
         (mvmul (c:=4) (mmul (k:=4) (transpose Js) W') error).
Proof.
  cbv zeta.
  apply (homogeneous_weight_entries_unused quarter_turn
           (vec [1; 2; 3; 1]%Z) (vec [0; 0; 0; 1]%Z) Identity space_identity).
  - reflexivity.
  - intros i j Hi Hj. do 3 (destruct i as [|i]; [do 3 (destruct j as [|j]; [reflexivity|]); lia|]).
    lia.
Defined.

(** X17, on an input: the gradient (0, 0, 3) along the normal (0, 0, 1). *)
Lemma gradient_along_normal_is_not_seen_witness :
  let f := color one_point shifted_point gradients_along_normal (of_Z 100) 0 0
                 Isometry3d_Identity [0%Z] in
  let delta := shift_x (1 # 2) in
  let k := Z.to_nat 0 in
  let normal_B := frame.normal (IntegratedColorConsistencyFactor.target f) k in
  let gradient_B :=
    frame.intensity_gradient (IntegratedColorConsistencyFactor.target_gradients f) k in
  IntegratedColorConsistencyFactor.error_photo f delta 0 0
  = frame.intensity (IntegratedColorConsistencyFactor.target f) k
    - frame.intensity (IntegratedColorConsistencyFactor.source f) 0
  /\ veq (n:=4) (IntegratedColorConsistencyFactor.J_ephoto_transed normal_B gradient_B)
         vZero.
Proof.
  cbv zeta.
  apply (gradient_along_normal_is_not_seen
           (color one_point shifted_point gradients_along_normal (of_Z 100) 0 0
                  Isometry3d_Identity [0%Z])
           (shift_x (1 # 2)) 0 0 (of_Z 3)).
  - qc_compute.
  - reflexivity.
  - intros i Hi. do 4 (destruct i as [|i]; [qc_compute|]). lia.
Defined.

(** X18, on an input: a rotation tolerance of zero beside a translation
    tolerance of one, and the reverse. *)
Lemma one_tolerance_never_skips_witness :
  let fg := gicp one_point one_point 1 0 1 Isometry3d_Identity [0%Z] in
  let fc := color one_point one_point gradients1 1 1 0 Isometry3d_Identity [0%Z] in
  IntegratedGICPFactor.do_update fg Isometry3d_Identity = true
  /\ IntegratedColorConsistencyFactor.do_update fc Isometry3d_Identity = true.
Proof.
  cbv zeta.
  apply (one_tolerance_never_skips
           (gicp one_point one_point 1 0 1 Isometry3d_Identity [0%Z])
           (color one_point one_point gradients1 1 1 0 Isometry3d_Identity [0%Z])
           Isometry3d_Identity).
  - intros R. apply sqrt_floor_nonneg.
  - intros x. apply sqrt_floor_nonneg.
  - left. qc_le.
  - right. qc_le.
Defined.

(** X20, on an input: the factors constructed over two points. *)
Lemma constructed_factor_first_evaluate_witness :
  let target := two_points in
  let source := two_points in
  let fg := gicp two_points two_points 1 0 0 Isometry3d_Identity [] in
  let fc := constructed_color in
  let delta := shift_x (1 # 2) in
  let o := no_outputs in
  let rg := IntegratedGICPFactor.evaluate fg delta o in
  let rc := IntegratedColorConsistencyFactor.evaluate fc delta o in
  (frame.has_points target = true /\ frame.has_covs target = true
   /\ frame.has_points source = true /\ frame.has_covs source = true
   /\ frame.has_normals target = true /\ frame.has_intensities target = true
   /\ frame.has_intensities source = true)
  /\ (IntegratedGICPFactor.queries rg
      = map (fun i => transform delta (frame.point source i)) (seq 0 (frame.size source))
      /\ IntegratedGICPFactor.last_correspondence_point
           (fst (IntegratedGICPFactor.update_correspondences
                   (IntegratedGICPFactor.factor rg) delta)) = delta
      /\ length (snd (IntegratedGICPFactor.update_correspondences
                        (IntegratedGICPFactor.factor rg) delta)) = frame.size source)
  /\ (IntegratedColorConsistencyFactor.queries rc
      = map (fun i => vset (transform delta (frame.point source i)) 3
                           (frame.intensity source i))
            (seq 0 (frame.size source))
      /\ length (snd (IntegratedColorConsistencyFactor.update_correspondences
                        (IntegratedColorConsistencyFactor.factor rc) delta))
         = frame.size source).
Proof.
  cbv zeta.
  apply (constructed_factor_first_evaluate
           two_points two_points (linear_search (points two_points)) gradients1
           Isometry3d_Identity
           (gicp two_points two_points 1 0 0 Isometry3d_Identity [])
           constructed_color (shift_x (1 # 2)) no_outputs); reflexivity.
Defined.

End MoreExamples.
